(** * A verified model of the tracking-plan generator

    Shallow embedding of [tracking_plan.py]: the identifier normaliser,
    the plan builder, the taxonomy validator and the three renderers,
    followed by the properties the specification states about them.

    Python [str] values are sequences of Unicode code points; they are
    modelled as [list N].  The ASCII part of the case mappings is written
    out; the non-ASCII part of the Unicode tables is an interface
    ([CaseTables]).  The random generator, the clock and the YAML dumper
    are interfaces as well. *)

From Stdlib Require Import NArith ZArith Ascii String List Lia Bool DecimalString.
From stdpp Require Import base option list gmap sets.

Local Open Scope N_scope.
Set Warnings "-register-all".

(** ** Strings *)

Abbreviation pystr := (list N).

(** An ASCII literal as a sequence of code points. *)
Fixpoint str (s : string) : pystr :=
  match s with
  | EmptyString => []
  | String a r => N_of_ascii a :: str r
  end.

Arguments str : simpl never.

Definition empty_str : pystr := [].

(** ** Character classes *)

Definition underscore : N := 95.
Definition newline : N := 10.

(** The class [[a-z0-9]]. *)
Definition in_az09 (c : N) : bool :=
  ((97 <=? c) && (c <=? 122)) || ((48 <=? c) && (c <=? 57)).

(** The class [[a-z0-9_]]. *)
Definition in_az09u (c : N) : bool := in_az09 c || (c =? underscore).

Definition is_underscore (c : N) : bool := c =? underscore.

(** The code points [str.strip()] removes (CPython's
    [_PyUnicode_IsWhitespace]). *)
Definition is_whitespace (c : N) : bool :=
  ((0x09 <=? c) && (c <=? 0x0D)) || ((0x1C <=? c) && (c <=? 0x20))
  || (c =? 0x85) || (c =? 0xA0) || (c =? 0x1680)
  || ((0x2000 <=? c) && (c <=? 0x200A))
  || (c =? 0x2028) || (c =? 0x2029) || (c =? 0x202F) || (c =? 0x205F)
  || (c =? 0x3000).

(** The characters of Python's [string.punctuation]. *)
Definition is_punctuation (c : N) : bool :=
  ((33 <=? c) && (c <=? 47)) || ((58 <=? c) && (c <=? 64))
  || ((91 <=? c) && (c <=? 96)) || ((123 <=? c) && (c <=? 126)).

(** ** [str.strip] *)

Fixpoint lstrip (p : N -> bool) (s : pystr) : pystr :=
  match s with
  | [] => []
  | c :: rest => if p c then lstrip p rest else s
  end.

Definition rstrip (p : N -> bool) (s : pystr) : pystr :=
  reverse (lstrip p (reverse s)).

(** [s.strip()] with [p := is_whitespace], [s.strip("_")] with
    [p := is_underscore]. *)
Definition strip (p : N -> bool) (s : pystr) : pystr := rstrip p (lstrip p s).

(** ** Case mappings *)

(** The Unicode case tables outside ASCII.  [to_lower_full before c after]
    is the lower-case expansion of the non-ASCII code point [c]; it sees
    the text around [c] because of the final-sigma rule.  [to_title_full]
    is the title-case expansion used by [str.capitalize] for the first
    character. *)
Class CaseTables := {
  to_lower_full : pystr -> N -> pystr -> pystr;
  to_title_full : N -> pystr;
}.

Definition ascii_lower (c : N) : N :=
  if (65 <=? c) && (c <=? 90) then c + 32 else c.

Definition ascii_upper (c : N) : N :=
  if (97 <=? c) && (c <=? 122) then c - 32 else c.

Section Case.
Context `{CaseTables}.

Definition lower_char (before : pystr) (c : N) (after : pystr) : pystr :=
  if c <? 128 then [ascii_lower c] else to_lower_full before c after.

Fixpoint lower_from (before s : pystr) : pystr :=
  match s with
  | [] => []
  | c :: rest => lower_char before c rest ++ lower_from (before ++ [c]) rest
  end.

(** [s.lower()] *)
Definition lower (s : pystr) : pystr := lower_from [] s.

Definition title_char (c : N) : pystr :=
  if c <? 128 then [ascii_upper c] else to_title_full c.

(** [s.capitalize()] *)
Definition capitalize (s : pystr) : pystr :=
  match s with
  | [] => []
  | c :: rest => title_char c ++ lower_from [c] rest
  end.
End Case.

(** Tables that leave every non-ASCII code point alone: enough to run the
    model on ASCII input. *)
Definition ascii_tables : CaseTables :=
  {| to_lower_full := fun _ c _ => [c]; to_title_full := fun c => [c] |}.

(** ** Regular expressions *)

(** [re.sub(r"[cls]+", repl, s)]: every maximal run of characters of the
    class is replaced by [repl].  [in_run] records that the previous
    character belonged to a run that was already replaced. *)
Fixpoint sub_runs (cls : N -> bool) (repl : pystr) (in_run : bool) (s : pystr) : pystr :=
  match s with
  | [] => []
  | c :: rest =>
      if cls c
      then (if in_run then sub_runs cls repl true rest
            else repl ++ sub_runs cls repl true rest)
      else c :: sub_runs cls repl false rest
  end.

Definition re_sub_plus (cls : N -> bool) (repl s : pystr) : pystr :=
  sub_runs cls repl false s.

(** [SNAKE_CASE_PATTERN.match(name)] for [^[a-z0-9_]+$]: without
    [re.MULTILINE], [$] matches at the end of the string and also just
    before a newline that ends the string. *)
Definition all_az09u (s : pystr) : bool := forallb in_az09u s.

Definition snake_case_match (name : pystr) : bool :=
  match reverse name with
  | [] => false
  | c :: front =>
      (all_az09u (c :: front))
      || ((c =? newline) && negb (bool_decide (front = [])) && all_az09u front)
  end.

(** ** Identifier normaliser *)

Section Slug.
Context `{CaseTables}.

Definition _slugify (text : pystr) : pystr :=
  let text := lower (strip is_whitespace text) in
  let text := re_sub_plus (fun c => negb (in_az09 c)) (str "_") text in
  let text := strip is_underscore (re_sub_plus is_underscore (str "_") text) in
  text.

Definition _event_name (feature_name action : pystr) : pystr :=
  let base := _slugify feature_name in
  let action_slug := _slugify action in
  base ++ str "__" ++ action_slug.
End Slug.

(** ** Data model *)

(** A property dictionary [{"name", "type", "description", "required"}]. *)
Record Property := mkProperty {
  p_name : pystr;
  p_type : pystr;
  p_description : pystr;
  p_required : bool;
}.

(** An event dictionary.  The validator reads [properties] with
    [ev.get("properties", [])]; an event without the key is the record with
    [properties := []]. *)
Record EventDefinition := mkEvent {
  event_name : pystr;
  friendly_name : pystr;
  description : pystr;
  when_triggered : pystr;
  platform : pystr;
  properties : list Property;
  category : pystr;
}.

(** The dictionary [generate_tracking_plan] returns. *)
Record TrackingPlan := mkPlan {
  feature_name : pystr;
  feature_description : pystr;
  plan_platform : pystr;
  events : list EventDefinition;
  taxonomy_issues : list pystr;
}.

#[global] Instance Property_eq_dec : EqDecision Property.
Proof. solve_decision. Defined.
#[global] Instance EventDefinition_eq_dec : EqDecision EventDefinition.
Proof. solve_decision. Defined.
#[global] Instance TrackingPlan_eq_dec : EqDecision TrackingPlan.
Proof. solve_decision. Defined.

(** ** Substring test: [needle in hay] *)

Fixpoint is_prefix (p s : pystr) : bool :=
  match p, s with
  | [], _ => true
  | _ :: _, [] => false
  | a :: p', b :: s' => (a =? b) && is_prefix p' s'
  end.

Fixpoint contains (needle hay : pystr) : bool :=
  is_prefix needle hay
  || match hay with
     | [] => false
     | _ :: rest => contains needle rest
     end.

(** ** Taxonomy validator *)

Definition required_props : list pystr :=
  [str "user_id"; str "workspace_id"; str "timestamp"].

(** The dictionary comprehension [{p["name"]: p for p in properties}]. *)
Definition props_by_name (ps : list Property) : gmap pystr Property :=
  fold_left (fun m p => <[p_name p := p]> m) ps ∅.

(** One iteration of the loop over the events: the issues collected so far
    and the set of names seen so far. *)
Definition validate_step (st : list pystr * gset pystr) (ev : EventDefinition)
  : list pystr * gset pystr :=
  let '(issues, seen_names) := st in
  let name := event_name ev in
  let issues :=
    if bool_decide (name ∈ seen_names)
    then issues ++ [str "Duplicate event name detected: " ++ name]
    else issues in
  let seen_names := seen_names ∪ {[name]} in
  let issues :=
    if negb (snake_case_match name)
    then issues ++ [str "Event name not snake_case: " ++ name]
    else issues in
  let props := props_by_name (properties ev) in
  let issues :=
    fold_left
      (fun issues required_prop =>
         if negb (bool_decide (is_Some (props !! required_prop)))
         then issues ++ [str "Missing required property '" ++ required_prop
                           ++ str "' in event: " ++ name]
         else issues)
      required_props issues in
  (issues, seen_names).

Definition validate_taxonomy (events : list EventDefinition) : list pystr :=
  fst (fold_left validate_step events ([], ∅)).

(** ** Plan builder *)

Definition mkprop (n t d : string) (r : bool) : Property :=
  mkProperty (str n) (str t) (str d) r.

Section Builder.
Context `{CaseTables}.

Definition _default_properties (action : pystr) : list Property :=
  let props :=
    [ mkprop "user_id" "string" "Unique identifier for the user" true;
      mkprop "workspace_id" "string" "Workspace or account identifier" true;
      mkprop "timestamp" "datetime" "Event timestamp in ISO 8601" true ] in
  let props :=
    if contains (str "error") (lower action)
    then (props ++ [mkprop "error_code" "string" "Machine-readable error code" false])
           ++ [mkprop "error_message" "string" "Human-readable error message" false]
    else props in
  let props :=
    if contains (str "click") (lower action) || contains (str "cta") (lower action)
    then (props ++ [mkprop "element_id" "string" "Frontend identifier for the clicked element" false])
           ++ [mkprop "page" "string" "Page or screen where the action occurred" false]
    else props in
  props.

(** The dictionary appended for a funnel stage. *)
Definition funnel_event (feature_name platform stage : pystr) : EventDefinition :=
  {| event_name := _event_name feature_name stage;
     friendly_name := feature_name ++ str " - " ++ capitalize stage;
     description := str "Fired when a user " ++ stage ++ str "s the "
                      ++ feature_name ++ str " feature.";
     when_triggered := str "User " ++ stage ++ str "s the "
                         ++ feature_name ++ str " flow.";
     platform := platform;
     properties := _default_properties stage;
     category := str "funnel" |}.

(** The dictionary appended for a key action. *)
Definition behavior_event (feature_name platform action : pystr) : EventDefinition :=
  {| event_name := _event_name feature_name action;
     friendly_name := feature_name ++ str " - " ++ capitalize action;
     description := str "Fired when a user performs key action: " ++ action ++ str ".";
     when_triggered := str "User completes action: " ++ action ++ str ".";
     platform := platform;
     properties := _default_properties action;
     category := str "behavior" |}.

(** [not action.strip()]: the stripped string is empty. *)
Definition is_blank (action : pystr) : bool :=
  bool_decide (strip is_whitespace action = []).

(** [funnel_stages] is [None] when the argument is left unset. *)
Definition generate_tracking_plan
    (feature_name feature_description : pystr) (key_actions : list pystr)
    (platform : pystr) (funnel_stages : option (list pystr)) : TrackingPlan :=
  let funnel_stages :=
    match funnel_stages with
    | None | Some [] => [str "view"; str "start"; str "complete"]
    | Some stages => stages
    end in
  let events : list EventDefinition := [] in
  let events :=
    fold_left (fun events stage => events ++ [funnel_event feature_name platform stage])
      funnel_stages events in
  let events :=
    fold_left
      (fun events action =>
         if is_blank action then events
         else events ++ [behavior_event feature_name platform action])
      key_actions events in
  let taxonomy_issues := validate_taxonomy events in
  {| feature_name := feature_name;
     feature_description := feature_description;
     plan_platform := platform;
     events := events;
     taxonomy_issues := taxonomy_issues |}.
End Builder.

(** ** Python dictionaries with string keys

    Insertion order is kept; assigning to an existing key keeps its place. *)

Fixpoint dict_set {V} (k : pystr) (v : V) (d : list (pystr * V)) : list (pystr * V) :=
  match d with
  | [] => [(k, v)]
  | (k', v') :: rest =>
      if bool_decide (k' = k) then (k', v) :: rest else (k', v') :: dict_set k v rest
  end.

Fixpoint dict_get {V} (k : pystr) (d : list (pystr * V)) : option V :=
  match d with
  | [] => None
  | (k', v') :: rest => if bool_decide (k' = k) then Some v' else dict_get k rest
  end.

(** ** Schema manifest renderer *)

(** The values the manifest is made of. *)
Inductive yaml :=
| YInt (z : Z)
| YStr (s : pystr)
| YBool (b : bool)
| YNone
| YList (items : list yaml)
| YDict (entries : list (pystr * yaml)).

(** [yaml.safe_dump(_, sort_keys=False)] of the PyYAML library. *)
Class YamlDumper := { safe_dump : yaml → pystr }.

(** The dictionary appended to [cols] for a property. *)
Definition column_entry (p : Property) : yaml :=
  YDict [ (str "name", YStr (p_name p));
          (str "description", YStr (p_description p));
          (str "tests", YList (if p_required p then [YStr (str "not_null")] else [])) ].

(** The value of [schema] when the two loops are done. *)
Definition dbt_schema (plan : TrackingPlan) : yaml :=
  let models : list yaml := [] in
  let models :=
    fold_left
      (fun models ev =>
         let cols : list yaml := [] in
         let cols := fold_left (fun cols p => cols ++ [column_entry p]) (properties ev) cols in
         models ++ [YDict [ (str "name", YStr (event_name ev));
                            (str "description", YStr (description ev));
                            (str "columns", YList cols) ]])
      (events plan) models in
  YDict [ (str "version", YInt 2); (str "models", YList models) ].

Definition tracking_plan_to_dbt_yaml `{YamlDumper} (plan : TrackingPlan) : pystr :=
  safe_dump (dbt_schema plan).

(** ** Sample event generator *)

(** The random generator behind the [random] module: [randbelow n g] draws
    a number below [n] and returns the next generator state. *)
Class RandomSource (G : Type) := {
  randbelow : N → G → N * G;
  randbelow_lt : ∀ n g, 0 < n → fst (randbelow n g) < n;
}.

(** The [datetime] values the generator handles: [now - timedelta(minutes=k)]
    and [isoformat()]. *)
Class Clock := {
  datetime : Type;
  minus_minutes : datetime → N → datetime;
  isoformat : datetime → pystr;
}.

Inductive exn := IndexError | KeyError | TypeError | AttributeError | SystemError.

(** Field values of a sample record. *)
Inductive pyvalue :=
| VStr (s : pystr)
| VNone.

#[global] Instance pyvalue_eq_dec : EqDecision pyvalue.
Proof. solve_decision. Defined.

(** [str(k)] for a non-negative integer. *)
Definition int_str (k : N) : pystr := str (NilZero.string_of_uint (N.to_uint k)).

Section Samples.
Context {G : Type} `{RandomSource G} `{Clock}.

(** Computations that draw random numbers and may raise. *)
Definition rand (A : Type) : Type := G → exn + (A * G).

Definition ret {A} (a : A) : rand A := fun g => inr (a, g).

Definition bind {A B} (m : rand A) (k : A → rand B) : rand B :=
  fun g => match m g with
           | inl e => inl e
           | inr (a, g') => k a g'
           end.

Definition raise {A} (e : exn) : rand A := fun _ => inl e.

Notation "'let*' x ':=' m 'in' k" := (bind m (fun x => k))
  (at level 10, x name, m at level 100, k at level 200).

(** [random.randint(a, b)] for [a <= b]. *)
Definition randint (a b : N) : rand N :=
  fun g => let '(k, g') := randbelow (b - a + 1) g in inr (a + k, g').

(** [random.choice(seq)]: raises on an empty sequence. *)
Definition choice {A} (seq : list A) : rand A :=
  match seq with
  | [] => raise IndexError
  | first :: _ =>
      fun g => let '(i, g') := randbelow (N.of_nat (length seq)) g in
               inr (nth (N.to_nat i) seq first, g')
  end.

(** One pass of the loop over the properties of the chosen event. *)
Definition fill_property (ts : datetime) (payload : list (pystr * pyvalue))
    (p : Property) : rand (list (pystr * pyvalue)) :=
  if bool_decide (p_name p = str "user_id") then
    let* k := randint 1 50 in
    ret (dict_set (str "user_id") (VStr (str "user_" ++ int_str k)) payload)
  else if bool_decide (p_name p = str "workspace_id") then
    let* k := randint 1 10 in
    ret (dict_set (str "workspace_id") (VStr (str "ws_" ++ int_str k)) payload)
  else if bool_decide (p_name p = str "timestamp") then
    ret (dict_set (str "timestamp") (VStr (isoformat ts ++ str "Z")) payload)
  else if bool_decide (p_name p = str "error_code") then
    let* v := choice [empty_str; str "E_TIMEOUT"; str "E_500"] in
    ret (dict_set (str "error_code") (VStr v) payload)
  else if bool_decide (p_name p = str "error_message") then
    let* v := choice [empty_str; str "Timeout"; str "Internal server error"] in
    ret (dict_set (str "error_message") (VStr v) payload)
  else if bool_decide (p_name p = str "element_id") then
    let* v := choice [str "cta_primary"; str "secondary_button"; str "link_text"] in
    ret (dict_set (str "element_id") (VStr v) payload)
  else if bool_decide (p_name p = str "page") then
    let* v := choice [str "settings"; str "dashboard"; str "feature_page"] in
    ret (dict_set (str "page") (VStr v) payload)
  else
    ret (dict_set (p_name p) VNone payload).

Fixpoint fill_properties (ts : datetime) (payload : list (pystr * pyvalue))
    (ps : list Property) : rand (list (pystr * pyvalue)) :=
  match ps with
  | [] => ret payload
  | p :: rest =>
      let* payload := fill_property ts payload p in
      fill_properties ts payload rest
  end.

(** The body of the loop [for _ in range(n)]. *)
Definition sample_one (plan : TrackingPlan) (now : datetime)
    (events_acc : list (list (pystr * pyvalue)))
  : rand (list (list (pystr * pyvalue))) :=
  let* ev_def := choice (events plan) in
  let* k := randint 0 (60 * 24) in
  let ts := minus_minutes now k in
  let payload := [(str "event_name", VStr (event_name ev_def))] in
  let* payload := fill_properties ts payload (properties ev_def) in
  ret (events_acc ++ [payload]).

Fixpoint sample_loop (plan : TrackingPlan) (now : datetime) (count : nat)
    (events_acc : list (list (pystr * pyvalue)))
  : rand (list (list (pystr * pyvalue))) :=
  match count with
  | O => ret events_acc
  | S count' =>
      let* events_acc := sample_one plan now events_acc in
      sample_loop plan now count' events_acc
  end.

(** [now] is the value [datetime.utcnow()] returns when the call starts;
    [range(n)] is empty for [n <= 0]. *)
Definition generate_sample_events (plan : TrackingPlan) (n : Z) (now : datetime)
  : rand (list (list (pystr * pyvalue))) :=
  sample_loop plan now (Z.to_nat n) [].
End Samples.

Arguments rand : clear implicits.

(** A linear congruential generator and a clock counting minutes: an
    instance of the interfaces to run the model on. *)
#[global, refine] Instance lcg_source : RandomSource N := {|
  randbelow n g := (g mod n, (g * 1103515245 + 12345) mod 2147483648);
|}.
Proof. intros n g Hn. simpl. apply N.mod_lt. lia. Defined.

Definition minute_clock : Clock :=
  {| datetime := Z;
     minus_minutes := fun t k => (t - Z.of_N k)%Z;
     isoformat := fun t => str "T" ++ int_str (Z.to_N t) |}.

(** A dumper that prints the whole value in flow style: enough to compare
    the two models of the manifest renderer on an example. *)
Fixpoint flow (y : yaml) : pystr :=
  match y with
  | YInt z => int_str (Z.to_N z)
  | YStr s => str "'" ++ s ++ str "'"
  | YBool b => if b then str "true" else str "false"
  | YNone => str "null"
  | YList items =>
      str "[" ++ (fix flow_items (l : list yaml) : pystr :=
                    match l with
                    | [] => []
                    | x :: rest => flow x ++ str "," ++ flow_items rest
                    end) items ++ str "]"
  | YDict entries =>
      str "{" ++ (fix flow_entries (l : list (pystr * yaml)) : pystr :=
                    match l with
                    | [] => []
                    | (k, x) :: rest => k ++ str ":" ++ flow x ++ str "," ++ flow_entries rest
                    end) entries ++ str "}"
  end.

Definition flow_dumper : YamlDumper := {| safe_dump := flow |}.

(** ** The object store

    The renderers receive the plan as a reference to a dictionary that
    holds references to further dictionaries, lists and strings.  To speak
    about mutation the plan is placed in a store of objects; a renderer is
    a program over the store.  Addresses are positions in the store and a
    new object is placed at the end. *)

Abbreviation addr := nat.

Inductive pyobj :=
| OStr (s : pystr)
| OInt (z : Z)
| OBool (b : bool)
| ONone
| OList (items : list addr)
| ODict (entries : list (pystr * addr)).

(** How a program over the store ends. *)
Inductive outcome (A : Type) :=
| Ok (a : A)
| Raise (e : exn)
| OutOfFuel.
Arguments Ok {A} a.
Arguments Raise {A} e.
Arguments OutOfFuel {A}.

(** [str(obj)] for an object that is not a string, as an f-string field
    prints it. *)
Class Formatter := { format_obj : list pyobj → addr → pystr }.

(** The value reachable from an address, read to the given depth. *)
Fixpoint reify (depth : nat) (h : list pyobj) (a : addr) : option yaml :=
  match depth with
  | O => None
  | S depth' =>
      match h !! a with
      | None => None
      | Some (OStr s) => Some (YStr s)
      | Some (OInt z) => Some (YInt z)
      | Some (OBool b) => Some (YBool b)
      | Some ONone => Some YNone
      | Some (OList items) => YList <$> mapM (reify depth' h) items
      | Some (ODict entries) =>
          YDict <$> mapM (λ e, pair (fst e) <$> reify depth' h (snd e)) entries
      end
  end.

(** [sep.join(parts)] *)
Fixpoint join (sep : pystr) (parts : list pystr) : pystr :=
  match parts with
  | [] => []
  | [s] => s
  | s :: rest => s ++ sep ++ join sep rest
  end.

Section Store.
Context {G : Type} `{RandomSource G} `{Clock} `{YamlDumper} `{Formatter}.

(** The store and the state of the random generator. *)
Definition state : Type := list pyobj * G.

Definition prog (A : Type) : Type := state → state * outcome A.

Definition hret {A} (a : A) : prog A := fun st => (st, Ok a).

Definition hbind {A B} (m : prog A) (k : A → prog B) : prog B :=
  fun st => match m st with
            | (st', Ok a) => k a st'
            | (st', Raise e) => (st', Raise e)
            | (st', OutOfFuel) => (st', OutOfFuel)
            end.

Definition hraise {A} (e : exn) : prog A := fun st => (st, Raise e).

Definition out_of_fuel {A} : prog A := fun st => (st, OutOfFuel).

Notation "'let*' x ':=' m 'in' k" := (hbind m (fun x => k))
  (at level 10, x name, m at level 100, k at level 200).

Definition get_store : prog (list pyobj) := fun st => (st, Ok (fst st)).

(** A new object. *)
Definition alloc (o : pyobj) : prog addr :=
  fun st => ((fst st ++ [o], snd st), Ok (length (fst st))).

Definition load (a : addr) : prog pyobj :=
  fun st => match fst st !! a with
            | Some o => (st, Ok o)
            | None => (st, Raise SystemError)
            end.

(** In-place update of the object at [a]. *)
Definition put (a : addr) (o : pyobj) : prog unit :=
  fun st => ((<[a := o]> (fst st), snd st), Ok tt).

(** A string literal or the result of an f-string. *)
Definition new_str (s : pystr) : prog addr := alloc (OStr s).

(** [d[k]] for a string key. *)
Definition getitem (d : addr) (k : pystr) : prog addr :=
  let* o := load d in
  match o with
  | ODict entries =>
      match dict_get k entries with
      | Some a => hret a
      | None => hraise KeyError
      end
  | _ => hraise TypeError
  end.

(** [d.get(k, default)] *)
Definition get_default (d : addr) (k : pystr) (default : addr) : prog addr :=
  let* o := load d in
  match o with
  | ODict entries =>
      match dict_get k entries with
      | Some a => hret a
      | None => hret default
      end
  | _ => hraise AttributeError
  end.

(** [l.append(x)] *)
Definition append (l x : addr) : prog unit :=
  let* o := load l in
  match o with
  | OList items => put l (OList (items ++ [x]))
  | _ => hraise AttributeError
  end.

(** [d[k] = v] for a string key. *)
Definition setitem (d : addr) (k : pystr) (v : addr) : prog unit :=
  let* o := load d in
  match o with
  | ODict entries => put d (ODict (dict_set k v entries))
  | _ => hraise TypeError
  end.

(** [d[key] = v] where the key is an object.  The dictionaries of the model
    have string keys, so a string key is the only one stored.  A list or a
    dictionary is unhashable and raises [TypeError] in Python as well.  An
    integer, a boolean or [None] is a key Python accepts and the model does
    not represent: the model ends with [TypeError] there too, which differs
    from Python.  The sample generator reaches that case only for a
    property whose name is not a string. *)
Definition setitem_obj (d key v : addr) : prog unit :=
  let* o := load key in
  match o with
  | OStr k => setitem d k v
  | _ => hraise TypeError
  end.

(** Truth value of an object. *)
Definition truthy (a : addr) : prog bool :=
  let* o := load a in
  hret match o with
       | OStr s => negb (bool_decide (s = []))
       | OInt z => negb (bool_decide (z = 0%Z))
       | OBool b => b
       | ONone => false
       | OList items => negb (bool_decide (items = []))
       | ODict entries => negb (bool_decide (entries = []))
       end.

(** An f-string field [{obj}]. *)
Definition format (a : addr) : prog pystr :=
  let* o := load a in
  match o with
  | OStr s => hret s
  | _ => let* h := get_store in hret (format_obj h a)
  end.

(** [obj == "literal"] *)
Definition eq_str (a : addr) (s : pystr) : prog bool :=
  let* o := load a in
  hret match o with
       | OStr s' => bool_decide (s' = s)
       | _ => false
       end.

(** The [i]-th element an iteration over the object yields: the item of a
    list, a one-character string of a string, a key of a dictionary. *)
Definition iter_next (it : addr) (i : nat) : prog (option addr) :=
  let* o := load it in
  match o with
  | OList items => hret (items !! i)
  | OStr s =>
      match s !! i with
      | Some c => let* a := new_str [c] in hret (Some a)
      | None => hret None
      end
  | ODict entries =>
      match entries !! i with
      | Some e => let* a := new_str (fst e) in hret (Some a)
      | None => hret None
      end
  | _ => hraise TypeError
  end.

(** [for x in it: body(x)], reading the object again at every step as the
    list iterator does; [fuel] bounds the number of steps. *)
Fixpoint for_from (fuel : nat) (it : addr) (i : nat) (body : addr → prog unit)
  : prog unit :=
  match fuel with
  | O => out_of_fuel
  | S fuel' =>
      let* next := iter_next it i in
      match next with
      | None => hret tt
      | Some x => let* _ := body x in for_from fuel' it (S i) body
      end
  end.

Definition for_each (fuel : nat) (it : addr) (body : addr → prog unit) : prog unit :=
  for_from fuel it 0 body.

(** [for _ in range(count): body] *)
Fixpoint repeat_times (count : nat) (body : prog unit) : prog unit :=
  match count with
  | O => hret tt
  | S count' => let* _ := body in repeat_times count' body
  end.

(** The strings of a list of string objects, for [join]. *)
Fixpoint load_strs (items : list addr) : prog (list pystr) :=
  match items with
  | [] => hret []
  | a :: rest =>
      let* o := load a in
      match o with
      | OStr s => let* ss := load_strs rest in hret (s :: ss)
      | _ => hraise TypeError
      end
  end.

(** [sep.join(lines)] *)
Definition join_obj (sep : pystr) (lines : addr) : prog pystr :=
  let* o := load lines in
  match o with
  | OList items => let* ss := load_strs items in hret (join sep ss)
  | _ => hraise TypeError
  end.

(** [lines.append(s)] for a literal or an f-string [s]. *)
Definition append_str (lines : addr) (s : pystr) : prog unit :=
  let* x := new_str s in append lines x.

(** The value between the braces of [f"...{d[k]}..."]. *)
Definition field (d : addr) (k : pystr) : prog pystr :=
  let* v := getitem d k in format v.

(** [f"...{d.get(k, 'n/a')}..."] *)
Definition field_default (d : addr) (k default : pystr) : prog pystr :=
  let* dflt := new_str default in
  let* v := get_default d k dflt in
  format v.

(** The mis-encoded dash of the source, as its three code points. *)
Definition dash : pystr := [0xE2; 0x20AC; 0x201D].

(** *** Report renderer *)

Definition markdown_property (lines p : addr) : prog unit :=
  let* r := getitem p (str "required") in
  let* t := truthy r in
  let req := if t then str "required" else str "optional" in
  let* name := field p (str "name") in
  let* type := field p (str "type") in
  let* descr := field p (str "description") in
  append_str lines (str "  - `" ++ name ++ str "` (" ++ type ++ str ", " ++ req
                      ++ str ") " ++ dash ++ str " " ++ descr).

Definition markdown_event (fuel : nat) (lines ev : addr) : prog unit :=
  let* s := field ev (str "event_name") in
  let* _ := append_str lines (str "### " ++ s) in
  let* s := field ev (str "friendly_name") in
  let* _ := append_str lines (str "- **Friendly name:** " ++ s) in
  let* s := field_default ev (str "category") (str "n/a") in
  let* _ := append_str lines (str "- **Category:** " ++ s) in
  let* s := field_default ev (str "platform") (str "n/a") in
  let* _ := append_str lines (str "- **Platform:** " ++ s) in
  let* s := field ev (str "when_triggered") in
  let* _ := append_str lines (str "- **When triggered:** " ++ s) in
  let* s := field ev (str "description") in
  let* _ := append_str lines (str "- **Description:** " ++ s) in
  let* _ := append_str lines (str "- **Properties:**") in
  let* props := getitem ev (str "properties") in
  let* _ := for_each fuel props (markdown_property lines) in
  append_str lines empty_str.

Definition tracking_plan_to_markdown (fuel : nat) (plan : addr) : prog pystr :=
  let* lines := alloc (OList []) in
  let* s := field plan (str "feature_name") in
  let* _ := append_str lines (str "# Tracking Plan: " ++ s) in
  let* _ := append_str lines empty_str in
  let* dflt := new_str empty_str in
  let* d := get_default plan (str "feature_description") dflt in
  let* _ := append lines d in
  let* _ := append_str lines empty_str in
  let* _ := append_str lines (str "## Events") in
  let* _ := append_str lines empty_str in
  let* evs := getitem plan (str "events") in
  let* _ := for_each fuel evs (markdown_event fuel lines) in
  let* issues := getitem plan (str "taxonomy_issues") in
  let* t := truthy issues in
  let* _ :=
    if t then
      let* _ := append_str lines (str "## Taxonomy Warnings") in
      let* _ := append_str lines empty_str in
      let* issues := getitem plan (str "taxonomy_issues") in
      for_each fuel issues
        (fun issue => let* s := format issue in append_str lines (str "- " ++ s))
    else hret tt in
  join_obj [newline] lines.

(** *** Schema manifest renderer *)

Definition dbt_column (cols p : addr) : prog unit :=
  let* name := getitem p (str "name") in
  let* descr := getitem p (str "description") in
  let* r := getitem p (str "required") in
  let* t := truthy r in
  let* tests :=
    if t then let* tag := new_str (str "not_null") in alloc (OList [tag])
    else alloc (OList []) in
  let* col := alloc (ODict [ (str "name", name); (str "description", descr);
                             (str "tests", tests) ]) in
  append cols col.

Definition dbt_model (fuel : nat) (models ev : addr) : prog unit :=
  let* cols := alloc (OList []) in
  let* props := getitem ev (str "properties") in
  let* _ := for_each fuel props (dbt_column cols) in
  let* name := getitem ev (str "event_name") in
  let* descr := getitem ev (str "description") in
  let* model := alloc (ODict [ (str "name", name); (str "description", descr);
                               (str "columns", cols) ]) in
  append models model.

(** [yaml.safe_dump(schema, sort_keys=False)]: the dumper reads the value
    reachable from [schema]. *)
Definition safe_dump_obj (fuel : nat) (schema : addr) : prog pystr :=
  let* h := get_store in
  match reify fuel h schema with
  | Some y => hret (safe_dump y)
  | None => out_of_fuel
  end.

Definition tracking_plan_to_dbt_yaml_obj (fuel : nat) (plan : addr) : prog pystr :=
  let* models := alloc (OList []) in
  let* evs := getitem plan (str "events") in
  let* _ := for_each fuel evs (dbt_model fuel models) in
  let* two := alloc (OInt 2) in
  let* schema := alloc (ODict [ (str "version", two); (str "models", models) ]) in
  safe_dump_obj fuel schema.

(** *** Sample event generator *)

(** Drawing from the generator inside a program over the store. *)
Definition draw {A} (m : rand G A) : prog A :=
  fun st => match m (snd st) with
            | inl e => (st, Raise e)
            | inr (a, g') => ((fst st, g'), Ok a)
            end.

(** [random.choice(seq)] on an object: an item of a list, a character of a
    string; a dictionary has no integer keys. *)
Definition choice_obj (seq : addr) : prog addr :=
  let* o := load seq in
  match o with
  | OList items => draw (choice items)
  | OStr s => let* c := draw (choice s) in new_str [c]
  | ODict entries => let* _ := draw (choice entries) in hraise KeyError
  | _ => hraise TypeError
  end.

Definition sample_property (ts : datetime) (payload p : addr) : prog unit :=
  let* name := getitem p (str "name") in
  let* is_user := eq_str name (str "user_id") in
  if is_user then
    let* k := draw (randint 1 50) in
    let* v := new_str (str "user_" ++ int_str k) in
    setitem payload (str "user_id") v
  else
  let* name := getitem p (str "name") in
  let* is_ws := eq_str name (str "workspace_id") in
  if is_ws then
    let* k := draw (randint 1 10) in
    let* v := new_str (str "ws_" ++ int_str k) in
    setitem payload (str "workspace_id") v
  else
  let* name := getitem p (str "name") in
  let* is_ts := eq_str name (str "timestamp") in
  if is_ts then
    let* v := new_str (isoformat ts ++ str "Z") in
    setitem payload (str "timestamp") v
  else
  let* name := getitem p (str "name") in
  let* is_code := eq_str name (str "error_code") in
  if is_code then
    let* s := draw (choice [empty_str; str "E_TIMEOUT"; str "E_500"]) in
    let* v := new_str s in
    setitem payload (str "error_code") v
  else
  let* name := getitem p (str "name") in
  let* is_msg := eq_str name (str "error_message") in
  if is_msg then
    let* s := draw (choice [empty_str; str "Timeout"; str "Internal server error"]) in
    let* v := new_str s in
    setitem payload (str "error_message") v
  else
  let* name := getitem p (str "name") in
  let* is_elem := eq_str name (str "element_id") in
  if is_elem then
    let* s := draw (choice [str "cta_primary"; str "secondary_button"; str "link_text"]) in
    let* v := new_str s in
    setitem payload (str "element_id") v
  else
  let* name := getitem p (str "name") in
  let* is_page := eq_str name (str "page") in
  if is_page then
    let* s := draw (choice [str "settings"; str "dashboard"; str "feature_page"]) in
    let* v := new_str s in
    setitem payload (str "page") v
  else
  let* none := alloc ONone in
  let* name := getitem p (str "name") in
  setitem_obj payload name none.

Definition sample_event (fuel : nat) (now : datetime) (plan events_list : addr)
  : prog unit :=
  let* evs := getitem plan (str "events") in
  let* ev_def := choice_obj evs in
  let* k := draw (randint 0 (60 * 24)) in
  let ts := minus_minutes now k in
  let* name := getitem ev_def (str "event_name") in
  let* payload := alloc (ODict [(str "event_name", name)]) in
  let* props := getitem ev_def (str "properties") in
  let* _ := for_each fuel props (sample_property ts payload) in
  append events_list payload.

(** Returns the address of the list of records. *)
Definition generate_sample_events_obj (fuel : nat) (plan : addr) (n : Z)
    (now : datetime) : prog addr :=
  let* events_list := alloc (OList []) in
  let* _ := repeat_times (Z.to_nat n) (sample_event fuel now plan events_list) in
  hret events_list.
End Store.

Arguments prog : clear implicits.
Arguments state : clear implicits.

(** A formatter that prints a placeholder: enough to run the model. *)
Definition opaque_formatter : Formatter :=
  {| format_obj := fun _ _ => str "<object>" |}.

(** ** A plan as objects in the store *)

(** The dictionaries of the plan as a value, keys in the order in which the
    builder writes them. *)
Definition encode_property (p : Property) : yaml :=
  YDict [ (str "name", YStr (p_name p)); (str "type", YStr (p_type p));
          (str "description", YStr (p_description p));
          (str "required", YBool (p_required p)) ].

Definition encode_event (ev : EventDefinition) : yaml :=
  YDict [ (str "event_name", YStr (event_name ev));
          (str "friendly_name", YStr (friendly_name ev));
          (str "description", YStr (description ev));
          (str "when_triggered", YStr (when_triggered ev));
          (str "platform", YStr (platform ev));
          (str "properties", YList (map encode_property (properties ev)));
          (str "category", YStr (category ev)) ].

Definition encode_plan (plan : TrackingPlan) : yaml :=
  YDict [ (str "feature_name", YStr (feature_name plan));
          (str "feature_description", YStr (feature_description plan));
          (str "platform", YStr (plan_platform plan));
          (str "events", YList (map encode_event (events plan)));
          (str "taxonomy_issues", YList (map YStr (taxonomy_issues plan))) ].

(** Places a value in the store, one new object per node, and returns the
    store and the address of the root. *)
Fixpoint store_value (y : yaml) (h : list pyobj) : list pyobj * addr :=
  match y with
  | YInt z => (h ++ [OInt z], length h)
  | YStr s => (h ++ [OStr s], length h)
  | YBool b => (h ++ [OBool b], length h)
  | YNone => (h ++ [ONone], length h)
  | YList items =>
      let '(h, addrs) :=
        (fix store_items (l : list yaml) (h : list pyobj) : list pyobj * list addr :=
           match l with
           | [] => (h, [])
           | x :: rest =>
               let '(h, a) := store_value x h in
               let '(h, addrs) := store_items rest h in
               (h, a :: addrs)
           end) items h in
      (h ++ [OList addrs], length h)
  | YDict entries =>
      let '(h, addrs) :=
        (fix store_entries (l : list (pystr * yaml)) (h : list pyobj)
           : list pyobj * list (pystr * addr) :=
           match l with
           | [] => (h, [])
           | (k, x) :: rest =>
               let '(h, a) := store_value x h in
               let '(h, addrs) := store_entries rest h in
               (h, (k, a) :: addrs)
           end) entries h in
      (h ++ [ODict addrs], length h)
  end.

(** ** Report renderer, as a function of the plan *)

(** The line appended for a property. *)
Definition markdown_property_line (p : Property) : pystr :=
  let req := if p_required p then str "required" else str "optional" in
  str "  - `" ++ p_name p ++ str "` (" ++ p_type p ++ str ", " ++ req
    ++ str ") " ++ dash ++ str " " ++ p_description p.

(** The list [lines] when the loops are done. *)
Definition markdown_lines (plan : TrackingPlan) : list pystr :=
  let lines : list pystr := [] in
  let lines := lines ++ [str "# Tracking Plan: " ++ feature_name plan] in
  let lines := lines ++ [empty_str] in
  let lines := lines ++ [feature_description plan] in
  let lines := lines ++ [empty_str] in
  let lines := lines ++ [str "## Events"] in
  let lines := lines ++ [empty_str] in
  let lines :=
    fold_left
      (fun lines ev =>
         let lines := lines ++ [str "### " ++ event_name ev] in
         let lines := lines ++ [str "- **Friendly name:** " ++ friendly_name ev] in
         let lines := lines ++ [str "- **Category:** " ++ category ev] in
         let lines := lines ++ [str "- **Platform:** " ++ platform ev] in
         let lines := lines ++ [str "- **When triggered:** " ++ when_triggered ev] in
         let lines := lines ++ [str "- **Description:** " ++ description ev] in
         let lines := lines ++ [str "- **Properties:**"] in
         let lines :=
           fold_left (fun lines p => lines ++ [markdown_property_line p])
             (properties ev) lines in
         lines ++ [empty_str])
      (events plan) lines in
  let lines :=
    if negb (bool_decide (taxonomy_issues plan = []))
    then
      let lines := lines ++ [str "## Taxonomy Warnings"] in
      let lines := lines ++ [empty_str] in
      fold_left (fun lines issue => lines ++ [str "- " ++ issue])
        (taxonomy_issues plan) lines
    else lines in
  lines.

Definition tracking_plan_to_markdown_text (plan : TrackingPlan) : pystr :=
  join [newline] (markdown_lines plan).

(** ** The form handler of [app.py] *)

(** The line boundaries of [str.splitlines]. *)
Definition is_linebreak (c : N) : bool :=
  (c =? 0x0A) || (c =? 0x0D) || (c =? 0x0B) || (c =? 0x0C)
  || (c =? 0x1C) || (c =? 0x1D) || (c =? 0x1E) || (c =? 0x85)
  || (c =? 0x2028) || (c =? 0x2029).

(** [s.splitlines()]: [cur] is the line read so far; a carriage return
    followed by a line feed is one boundary; there is no empty last line. *)
Fixpoint splitlines_from (cur s : pystr) : list pystr :=
  match s with
  | [] => match cur with [] => [] | _ => [cur] end
  | c :: rest =>
      if is_linebreak c then
        cur :: match rest with
               | d :: rest' =>
                   if (c =? 0x0D) && (d =? 0x0A) then splitlines_from [] rest'
                   else splitlines_from [] rest
               | [] => splitlines_from [] rest
               end
      else splitlines_from (cur ++ [c]) rest
  end.

Definition splitlines (s : pystr) : list pystr := splitlines_from [] s.

(** [s.split(sep)] for a one-character separator. *)
Fixpoint split_from (sep : N) (cur s : pystr) : list pystr :=
  match s with
  | [] => [cur]
  | c :: rest =>
      if c =? sep then cur :: split_from sep [] rest
      else split_from sep (cur ++ [c]) rest
  end.

Definition split (sep : N) (s : pystr) : list pystr := split_from sep [] s.

Definition comma : N := 44.

(** [[x.strip() for x in pieces if x.strip()]] *)
Definition stripped_nonblank (pieces : list pystr) : list pystr :=
  map (strip is_whitespace) (filter (λ x, strip is_whitespace x ≠ []) pieces).

Definition parse_key_actions (key_actions_text : pystr) : list pystr :=
  stripped_nonblank (splitlines key_actions_text).

Definition parse_funnel_stages (funnel_stages_text : pystr) : list pystr :=
  stripped_nonblank (split comma funnel_stages_text).

(** The plan the handler builds from the fields of the form. *)
Definition submitted_plan `{CaseTables}
    (feature_name feature_description platform key_actions_text
       funnel_stages_text : pystr) : TrackingPlan :=
  let key_actions := parse_key_actions key_actions_text in
  let funnel_stages := parse_funnel_stages funnel_stages_text in
  generate_tracking_plan feature_name feature_description key_actions platform
    (Some funnel_stages).

Example slugify_ex1 : @_slugify ascii_tables (str "  Click  Invite!! ") = str "click_invite".
Proof. vm_compute. reflexivity. Qed.

Example plan_ex1 :
  map event_name (events (@generate_tracking_plan ascii_tables (str "share") [] [str "click invite"; str "  "] (str "web") None))
  = [str "share__view"; str "share__start"; str "share__complete"; str "share__click_invite"].
Proof. vm_compute. reflexivity. Qed.

(** * Properties of the identifier normaliser *)

Fixpoint no_double (s : pystr) : bool :=
  match s with
  | a :: (b :: _) as rest => negb ((a =? underscore) && (b =? underscore)) && no_double rest
  | _ => true
  end.

Section StripFacts.
Variable p : N -> bool.

Lemma lstrip_split s : ∃ a, s = a ++ lstrip p s ∧ Forall (λ c, p c = true) a.
Proof.
  induction s as [|c s [a [E Ha]]]; simpl.
  - exists []. split; [done | constructor].
  - destruct (p c) eqn:Hc.
    + exists (c :: a). split; [simpl; by rewrite <- E | by constructor].
    + exists []. split; [done | constructor].
Qed.

Lemma lstrip_head s c : head (lstrip p s) = Some c → p c = false.
Proof.
  induction s as [|d s IH]; simpl; [done|].
  destruct (p d) eqn:Hd; [done|]. simpl. by intros [= <-].
Qed.

Lemma lstrip_id s : (∀ c, head s = Some c → p c = false) → lstrip p s = s.
Proof. destruct s as [|c s]; simpl; [done|]. intros Hh. by rewrite (Hh c). Qed.

Lemma lstrip_all s : Forall (λ c, p c = true) s → lstrip p s = [].
Proof. induction 1 as [|c s Hc _ IH]; simpl; [done|]. by rewrite Hc. Qed.

Lemma rstrip_split s : ∃ b, s = rstrip p s ++ b ∧ Forall (λ c, p c = true) b.
Proof.
  unfold rstrip. destruct (lstrip_split (reverse s)) as [a [E Ha]].
  exists (reverse a). split.
  - rewrite <- reverse_app, <- E. by rewrite reverse_involutive.
  - by apply Forall_reverse.
Qed.

Lemma rstrip_last s c : last (rstrip p s) = Some c → p c = false.
Proof. unfold rstrip. rewrite last_reverse. apply lstrip_head. Qed.

Lemma rstrip_id s : (∀ c, last s = Some c → p c = false) → rstrip p s = s.
Proof.
  intros Hl. unfold rstrip. rewrite lstrip_id; [apply reverse_involutive|].
  intros c. rewrite head_reverse. apply Hl.
Qed.

Lemma rstrip_all s : Forall (λ c, p c = true) s → rstrip p s = [].
Proof.
  intros Hs. unfold rstrip. rewrite lstrip_all; [done|]. by apply Forall_reverse.
Qed.

(** The stripped string is a contiguous segment of the original. *)
Lemma strip_split s :
  ∃ a b, s = a ++ strip p s ++ b
         ∧ Forall (λ c, p c = true) a ∧ Forall (λ c, p c = true) b.
Proof.
  unfold strip. destruct (lstrip_split s) as [a [Ea Ha]].
  destruct (rstrip_split (lstrip p s)) as [b [Eb Hb]].
  exists a, b. split; [|done]. by rewrite <- Eb.
Qed.

Lemma strip_last s c : last (strip p s) = Some c → p c = false.
Proof. apply rstrip_last. Qed.

Lemma strip_head s c : head (strip p s) = Some c → p c = false.
Proof.
  unfold strip. intros Hh.
  destruct (rstrip_split (lstrip p s)) as [b [Eb _]].
  apply (lstrip_head s). rewrite Eb.
  destruct (rstrip p (lstrip p s)); [done|]. exact Hh.
Qed.

Lemma strip_id s :
  (∀ c, head s = Some c → p c = false) → (∀ c, last s = Some c → p c = false) →
  strip p s = s.
Proof. intros Hh Hl. unfold strip. rewrite lstrip_id by done. by apply rstrip_id. Qed.

Lemma strip_all s : Forall (λ c, p c = true) s → strip p s = [].
Proof. intros Hs. unfold strip. rewrite lstrip_all by done. by apply rstrip_all. Qed.
End StripFacts.

Section SubFacts.
Variables (cls : N -> bool) (repl : pystr).

Lemma sub_runs_Forall (P : N -> Prop) b s :
  Forall P repl → Forall P s → Forall P (sub_runs cls repl b s).
Proof.
  intros Hr Hs. revert b. induction Hs as [|c s Hc _ IH]; intros b; simpl.
  - constructor.
  - destruct (cls c), b; auto using Forall_app_2.
Qed.

Lemma sub_runs_Forall_out (P : N -> Prop) b s :
  (∀ c, cls c = false → P c) → Forall P repl → Forall P (sub_runs cls repl b s).
Proof.
  intros Hc Hr. revert b. induction s as [|c s IH]; intros b; simpl.
  - constructor.
  - destruct (cls c) eqn:E, b; auto using Forall_app_2.
Qed.

Lemma sub_runs_all b s :
  Forall (λ c, cls c = true) s →
  sub_runs cls repl b s = if b || bool_decide (s = []) then [] else repl.
Proof.
  intros Hs. revert b. induction Hs as [|c s Hc _ IH]; intros b; simpl.
  - by destruct b.
  - rewrite Hc, IH. simpl. destruct b; simpl; [done|]. by rewrite app_nil_r.
Qed.
End SubFacts.

Lemma no_double_cons c s :
  no_double (c :: s) = true ↔
  (c ≠ underscore ∨ head s ≠ Some underscore) ∧ no_double s = true.
Proof.
  destruct s as [|d s].
  - simpl. split; [intros _; split; [right|]; done | done].
  - change (no_double (c :: d :: s))
      with (negb ((c =? underscore) && (d =? underscore)) && no_double (d :: s)).
    rewrite andb_true_iff, negb_true_iff, andb_false_iff, !N.eqb_neq. simpl.
    split; intros [[?|?] ?]; split; auto; right; congruence.
Qed.

Lemma no_double_app_l a b : no_double (a ++ b) = true → no_double a = true.
Proof.
  induction a as [|c a IH]; [done|]. simpl app.
  rewrite !no_double_cons. intros [Hc Hn]. split; [|auto].
  destruct Hc as [?|Hh]; [by left|]. right. destruct a; [done|]. exact Hh.
Qed.

Lemma no_double_app_r a b : no_double (a ++ b) = true → no_double b = true.
Proof.
  induction a as [|c a IH]; [done|]. simpl app.
  rewrite no_double_cons. intros [_ Hn]. auto.
Qed.

(** No two neighbouring positions both hold an underscore. *)
Lemma no_double_lookup s i :
  no_double s = true → s !! i = Some underscore → s !! S i ≠ Some underscore.
Proof.
  revert i. induction s as [|c s IH]; intros i; [done|].
  rewrite no_double_cons. intros [Hc Hn]. destruct i as [|i]; simpl.
  - intros [= ->]. destruct Hc as [?|Hh]; [done|]. by destruct s.
  - by apply IH.
Qed.

(** After [re.sub(r"_+", "_", s)] no two underscores are adjacent; when the
    scan is inside a run the result does not start with an underscore. *)
Lemma sub_runs_underscore_no_double b s :
  no_double (sub_runs is_underscore (str "_") b s) = true
  ∧ (b = true → head (sub_runs is_underscore (str "_") b s) ≠ Some underscore).
Proof.
  change (str "_") with [underscore].
  revert b. induction s as [|c s IH]; intros b; cbn [sub_runs]; [done|].
  destruct (is_underscore c) eqn:E; unfold is_underscore in E.
  - destruct b.
    + apply IH.
    + split; [|done]. cbn [app].
      apply no_double_cons. destruct (IH true) as [? Hh]. split; [right|]; auto.
  - apply N.eqb_neq in E. split.
    + apply no_double_cons. split; [by left | apply IH].
    + simpl. congruence.
Qed.

(** A string whose only characters of the class are isolated underscores is
    left alone by the substitution. *)
Lemma sub_runs_id cls b s :
  Forall (λ c, cls c = (c =? underscore)) s → no_double s = true →
  (b = true → head s ≠ Some underscore) →
  sub_runs cls (str "_") b s = s.
Proof.
  change (str "_") with [underscore].
  intros Hs. revert b. induction Hs as [|c s Hc _ IH]; intros b Hn Hb; [done|].
  apply no_double_cons in Hn as [Hc' Hn]. cbn [sub_runs]. rewrite Hc.
  destruct (c =? underscore) eqn:E.
  - apply N.eqb_eq in E. subst c. destruct b; [by destruct Hb|].
    cbn [app]. f_equal. apply IH; [done|]. intros _. by destruct Hc'.
  - f_equal. by apply IH.
Qed.

Section LowerFacts.
Context `{CaseTables}.

(** [lower] leaves ASCII text without capitals alone. *)
Lemma lower_from_id before s :
  Forall (λ c, c < 128 ∧ ascii_lower c = c) s → lower_from before s = s.
Proof.
  intros Hs. revert before. induction Hs as [|c s [Hc Hl] _ IH]; intros before; [done|].
  simpl. unfold lower_char. apply N.ltb_lt in Hc. rewrite Hc, Hl. simpl.
  by rewrite IH.
Qed.
End LowerFacts.

Lemma az09u_ascii_lower c : in_az09u c = true → c < 128 ∧ ascii_lower c = c.
Proof.
  unfold in_az09u, in_az09, ascii_lower, underscore.
  rewrite !orb_true_iff, !andb_true_iff, !N.leb_le, N.eqb_eq. intros Hc.
  split; [lia|]. destruct ((65 <=? c) && (c <=? 90)) eqn:E; [|done].
  apply andb_true_iff in E. rewrite !N.leb_le in E. lia.
Qed.

Lemma punctuation_ascii_lower c : is_punctuation c = true → c < 128 ∧ ascii_lower c = c.
Proof.
  unfold is_punctuation, ascii_lower.
  rewrite !orb_true_iff, !andb_true_iff, !N.leb_le. intros Hc.
  split; [lia|]. destruct ((65 <=? c) && (c <=? 90)) eqn:E; [|done].
  apply andb_true_iff in E. rewrite !N.leb_le in E. lia.
Qed.

Lemma punctuation_not_az09 c : is_punctuation c = true → in_az09 c = false.
Proof.
  unfold is_punctuation, in_az09.
  rewrite !orb_true_iff, !andb_true_iff, !N.leb_le, orb_false_iff, !andb_false_iff, !N.leb_gt.
  lia.
Qed.

Lemma az09u_not_whitespace c : in_az09u c = true → is_whitespace c = false.
Proof.
  unfold in_az09u, in_az09, is_whitespace, underscore.
  rewrite !orb_true_iff, !andb_true_iff, !N.leb_le, N.eqb_eq. intros Hc.
  repeat (apply orb_false_iff; split);
    rewrite ?andb_false_iff, ?N.leb_gt, ?N.eqb_neq; lia.
Qed.

(** The shape of a slug: only [[a-z0-9_]], no underscore at either end, no
    two underscores in a row. *)
Definition slug_shape (s : pystr) : Prop :=
  Forall (λ c, in_az09u c = true) s
  ∧ head s ≠ Some underscore
  ∧ last s ≠ Some underscore
  ∧ no_double s = true.

Section SlugFacts.
Context `{CaseTables}.

Lemma slugify_shape x : slug_shape (_slugify x).
Proof.
  unfold _slugify. cbv zeta.
  set (t1 := lower (strip is_whitespace x)).
  set (t2 := re_sub_plus (λ c, negb (in_az09 c)) (str "_") t1).
  set (t3 := re_sub_plus is_underscore (str "_") t2).
  assert (H2 : Forall (λ c, in_az09u c = true) t2).
  { apply sub_runs_Forall_out; [|by repeat constructor].
    intros c Hc. apply negb_false_iff in Hc. unfold in_az09u. by rewrite Hc. }
  assert (H3 : Forall (λ c, in_az09u c = true) t3).
  { apply sub_runs_Forall; [by repeat constructor | done]. }
  assert (N3 : no_double t3 = true) by apply sub_runs_underscore_no_double.
  destruct (strip_split is_underscore t3) as (a & b & E & _ & _).
  rewrite E in H3, N3.
  apply Forall_app in H3 as [_ H3]. apply Forall_app in H3 as [H3 _].
  apply no_double_app_r, no_double_app_l in N3.
  split; [done|]. split; [|split; [|done]].
  - intros Hh. apply strip_head in Hh. done.
  - intros Hl. apply strip_last in Hl. done.
Qed.

(** A slug is a fixed point of [_slugify]. *)
Lemma slugify_fixed y : slug_shape y → _slugify y = y.
Proof.
  intros (Hc & Hh & Hl & Hn). unfold _slugify. cbv zeta.
  assert (Hin : ∀ c, c ∈ y → in_az09u c = true) by by apply Forall_forall.
  rewrite (strip_id is_whitespace y).
  2:{ intros c Hc'. apply az09u_not_whitespace, Hin. by apply head_Some_elem_of. }
  2:{ intros c Hc'. apply az09u_not_whitespace, Hin. by apply last_Some_elem_of. }
  unfold lower. rewrite lower_from_id.
  2:{ eapply Forall_impl; [exact Hc|]. apply az09u_ascii_lower. }
  unfold re_sub_plus. rewrite (sub_runs_id _ false y); [|  |done|done].
  2:{ eapply Forall_impl; [exact Hc|]. intros c. unfold in_az09u.
      destruct (c =? underscore) eqn:E.
      - apply N.eqb_eq in E. by subst c.
      - rewrite orb_false_r. by intros ->. }
  rewrite (sub_runs_id _ false y); [|by apply Forall_true|done|done].
  apply strip_id.
  - intros c Hc'. unfold is_underscore. apply N.eqb_neq. congruence.
  - intros c Hc'. unfold is_underscore. apply N.eqb_neq. congruence.
Qed.

(** Text whose lower-cased, stripped form has no character of [[a-z0-9]]
    normalises to the empty string. *)
Lemma slugify_no_az09 x :
  Forall (λ c, in_az09 c = false) (lower (strip is_whitespace x)) → _slugify x = [].
Proof.
  intros Hx. unfold _slugify, re_sub_plus. cbv zeta.
  rewrite (sub_runs_all (λ c, negb (in_az09 c))).
  2:{ eapply Forall_impl; [exact Hx|]. by intros c ->. }
  cbn [orb]. case_bool_decide; [done|]. by vm_compute.
Qed.

Lemma slugify_punctuation x :
  Forall (λ c, is_punctuation c = true) x → _slugify x = [].
Proof.
  intros Hx. apply slugify_no_az09.
  destruct (strip_split is_whitespace x) as (a & b & E & _ & _).
  rewrite E in Hx. apply Forall_app in Hx as [_ Hx]. apply Forall_app in Hx as [Hx _].
  unfold lower. rewrite lower_from_id.
  - eapply Forall_impl; [exact Hx|]. apply punctuation_not_az09.
  - eapply Forall_impl; [exact Hx|]. apply punctuation_ascii_lower.
Qed.
End SlugFacts.

(** C3. [_slugify] is idempotent; its result consists of characters of
    [[a-z0-9_]] only, neither starts nor ends with an underscore and has no
    two consecutive underscores; the empty string, text made of punctuation
    characters only and, more generally, text without a character that
    lower-cases into [[a-z0-9]] all normalise to the empty string. *)
Theorem slugify_idempotent_shape `{CaseTables} :
  (∀ x, _slugify (_slugify x) = _slugify x)
  ∧ (∀ x, Forall (λ c, in_az09u c = true) (_slugify x)
          ∧ head (_slugify x) ≠ Some underscore
          ∧ last (_slugify x) ≠ Some underscore
          ∧ (∀ i, _slugify x !! i = Some underscore → _slugify x !! S i ≠ Some underscore))
  ∧ _slugify [] = []
  ∧ (∀ x, Forall (λ c, is_punctuation c = true) x → _slugify x = [])
  ∧ (∀ x, Forall (λ c, in_az09 c = false) (lower (strip is_whitespace x)) → _slugify x = []).
Proof.
  split; [|split; [|split; [|split]]].
  - intros x. apply slugify_fixed, slugify_shape.
  - intros x. destruct (slugify_shape x) as (Hc & Hh & Hl & Hn).
    repeat split; try done. intros i. by apply no_double_lookup.
  - reflexivity.
  - apply slugify_punctuation.
  - apply slugify_no_az09.
Qed.

Lemma slugify_idempotent_shape_witness :
  Forall (λ c, is_punctuation c = true) (str "?!--")
  ∧ @_slugify ascii_tables (str "?!--") = []
  ∧ @_slugify ascii_tables (str " A-b ") !! 1%nat = Some underscore
  ∧ @_slugify ascii_tables (str " A-b ") !! 2%nat ≠ Some underscore.
Proof.
  pose proof (@slugify_idempotent_shape ascii_tables) as (_ & Hs & _ & Hp & _).
  assert (Hx : Forall (λ c, is_punctuation c = true) (str "?!--"))
    by (repeat constructor).
  split; [exact Hx|]. split; [exact (Hp _ Hx)|].
  assert (H1 : @_slugify ascii_tables (str " A-b ") !! 1%nat = Some underscore)
    by reflexivity.
  split; [exact H1|].
  destruct (Hs (str " A-b ")) as (_ & _ & _ & Hd). exact (Hd 1%nat H1).
Defined.

(** * Properties of the plan builder *)

(** [contains] is the substring relation. *)
Lemma is_prefix_spec p s : is_prefix p s = true ↔ ∃ b, s = p ++ b.
Proof.
  revert s. induction p as [|a p IH]; intros s; simpl.
  - split; [eauto | done].
  - destruct s as [|c s].
    + split; [done | by intros [b ?]].
    + rewrite andb_true_iff, N.eqb_eq, IH. split.
      * intros [-> [b ->]]. eauto.
      * intros [b [= -> ->]]. eauto.
Qed.

Lemma contains_spec needle hay :
  contains needle hay = true ↔ ∃ a b, hay = a ++ needle ++ b.
Proof.
  induction hay as [|c hay IH]; simpl.
  - rewrite orb_false_r, is_prefix_spec. split.
    + intros [b E]. by exists [], b.
    + intros (a & b & E). symmetry in E. apply app_eq_nil in E as [-> E]. eauto.
  - rewrite orb_true_iff, is_prefix_spec, IH. split.
    + intros [[b E]|(a & b & E)]; [by exists [], b|]. exists (c :: a), b. by rewrite E.
    + intros (a & b & E). destruct a as [|d a]; [left; eauto|].
      right. injection E as -> ->. eauto.
Qed.

Lemma fold_left_snoc_map {A B} (f : A → B) l acc :
  fold_left (λ acc x, acc ++ [f x]) l acc = acc ++ map f l.
Proof.
  revert acc. induction l as [|x l IH]; intros acc; simpl.
  - by rewrite app_nil_r.
  - by rewrite IH, <- app_assoc.
Qed.

Lemma fold_left_snoc_filter {A B} (f : A → B) (skip : A → bool) l acc :
  fold_left (λ acc x, if skip x then acc else acc ++ [f x]) l acc
  = acc ++ map f (filter (λ x, skip x = false) l).
Proof.
  revert acc. induction l as [|x l IH]; intros acc; simpl.
  - by rewrite app_nil_r.
  - rewrite IH, filter_cons. destruct (skip x) eqn:E.
    + by rewrite decide_False by done.
    + rewrite decide_True by done. simpl. by rewrite <- app_assoc.
Qed.

(** The stages the builder iterates over: the argument, or the default
    triple when the argument is unset or empty. *)
Definition stages_or_default (funnel_stages : option (list pystr)) : list pystr :=
  match funnel_stages with
  | Some (s :: rest) => s :: rest
  | _ => [str "view"; str "start"; str "complete"]
  end.

Section BuilderFacts.
Context `{CaseTables}.

Lemma generate_tracking_plan_events fn fd ka pf fs :
  events (generate_tracking_plan fn fd ka pf fs)
  = map (funnel_event fn pf) (stages_or_default fs)
      ++ map (behavior_event fn pf) (filter (λ a, is_blank a = false) ka).
Proof.
  unfold generate_tracking_plan. cbv zeta. cbn [events].
  rewrite fold_left_snoc_filter, (fold_left_snoc_map (funnel_event fn pf)).
  by destruct fs as [[|]|].
Qed.
End BuilderFacts.

(** The sequence of appends of [_default_properties] as one concatenation. *)
Lemma default_properties_blocks_aux `{CaseTables} (label : pystr) :
  _default_properties label
  = [ mkprop "user_id" "string" "Unique identifier for the user" true;
      mkprop "workspace_id" "string" "Workspace or account identifier" true;
      mkprop "timestamp" "datetime" "Event timestamp in ISO 8601" true ]
    ++ ((if contains (str "error") (lower label)
         then [ mkprop "error_code" "string" "Machine-readable error code" false;
                mkprop "error_message" "string" "Human-readable error message" false ]
         else [])
        ++ (if contains (str "click") (lower label) || contains (str "cta") (lower label)
            then [ mkprop "element_id" "string" "Frontend identifier for the clicked element" false;
                   mkprop "page" "string" "Page or screen where the action occurred" false ]
            else [])).
Proof.
  unfold _default_properties. cbv zeta.
  destruct (contains (str "error") (lower label));
    destruct (contains (str "click") (lower label) || contains (str "cta") (lower label));
    reflexivity.
Qed.

(** C4. [_default_properties] starts with the required [user_id],
    [workspace_id], [timestamp]; if the lower-cased label contains
    [error] the optional [error_code], [error_message] follow; if it
    contains [click] or [cta] the optional [element_id], [page] follow,
    after the error block when both are present.  The test reads the label
    itself, not its slug. *)
Theorem default_properties_blocks `{CaseTables} (label : pystr) :
  _default_properties label
  = [ mkprop "user_id" "string" "Unique identifier for the user" true;
      mkprop "workspace_id" "string" "Workspace or account identifier" true;
      mkprop "timestamp" "datetime" "Event timestamp in ISO 8601" true ]
    ++ (if contains (str "error") (lower label)
        then [ mkprop "error_code" "string" "Machine-readable error code" false;
               mkprop "error_message" "string" "Human-readable error message" false ]
        else [])
    ++ (if contains (str "click") (lower label) || contains (str "cta") (lower label)
        then [ mkprop "element_id" "string" "Frontend identifier for the clicked element" false;
               mkprop "page" "string" "Page or screen where the action occurred" false ]
        else []).
Proof. apply default_properties_blocks_aux. Qed.

(** The tests ignore case and both blocks can be present. *)
Example default_properties_error_and_cta :
  map p_name (@_default_properties ascii_tables (str "Fatal ERROR on Cta"))
  = [str "user_id"; str "workspace_id"; str "timestamp";
     str "error_code"; str "error_message"; str "element_id"; str "page"]
  ∧ map p_required (@_default_properties ascii_tables (str "Fatal ERROR on Cta"))
    = [true; true; true; false; false; false; false].
Proof. split; by vm_compute. Qed.

(** C1. The events of a built plan are the funnel events, one per stage in
    stage order (the default three stages when [funnel_stages] is unset or
    empty), followed by the behaviour events, one per non-blank key action
    in key-action order; so their number is the number of stages plus the
    number of non-blank key actions. *)
Theorem build_plan_events `{CaseTables}
    (feature_name feature_description : pystr) (key_actions : list pystr)
    (platform : pystr) (funnel_stages : option (list pystr)) :
  let plan := generate_tracking_plan feature_name feature_description
                key_actions platform funnel_stages in
  let stages :=
    match funnel_stages with
    | Some (s :: rest) => s :: rest
    | Some [] | None => [str "view"; str "start"; str "complete"]
    end in
  let actions := filter (λ a, strip is_whitespace a ≠ []) key_actions in
  let funnel := map (funnel_event feature_name platform) stages in
  let behavior := map (behavior_event feature_name platform) actions in
  events plan = funnel ++ behavior
  ∧ length (events plan) = (length stages + length actions)%nat
  ∧ Forall (λ ev, category ev = str "funnel") funnel
  ∧ Forall (λ ev, category ev = str "behavior") behavior
  ∧ map event_name funnel = map (_event_name feature_name) stages
  ∧ map event_name behavior = map (_event_name feature_name) actions.
Proof.
  intros plan stages actions funnel behavior.
  assert (E : events plan = funnel ++ behavior).
  { unfold plan. rewrite generate_tracking_plan_events.
    unfold funnel, behavior, stages, stages_or_default.
    replace (filter (λ a, is_blank a = false) key_actions) with actions.
    { by destruct funnel_stages as [[|]|]. }
    apply list_filter_iff. intros a. unfold is_blank.
    by rewrite bool_decide_eq_false. }
  split; [exact E|]. split.
  { rewrite E, length_app. unfold funnel, behavior. by rewrite !length_map. }
  split; [by apply Forall_map, Forall_true|].
  split; [by apply Forall_map, Forall_true|].
  unfold funnel, behavior. by rewrite !map_map.
Qed.

(** C7. The scenario of the specification: feature [share], empty
    description, key actions [["click invite"]], platform [web], default
    funnel stages (argument unset, or empty).  The event names are
    [share__view], [share__start], [share__complete],
    [share__click_invite] in that order, and the properties of the last
    event include [element_id] and [page]. *)
Theorem share_scenario `{CaseTables} :
  let plan := generate_tracking_plan (str "share") empty_str [str "click invite"]
                (str "web") None in
  map event_name (events plan)
  = [str "share__view"; str "share__start"; str "share__complete";
     str "share__click_invite"]
  ∧ (∃ ev, last (events plan) = Some ev
           ∧ event_name ev = str "share__click_invite"
           ∧ str "element_id" ∈ map p_name (properties ev)
           ∧ str "page" ∈ map p_name (properties ev))
  ∧ generate_tracking_plan (str "share") empty_str [str "click invite"]
      (str "web") (Some []) = plan.
Proof.
  intros plan. split; [by vm_compute|]. split; [|by vm_compute].
  eexists. split; [by vm_compute|]. split; [by vm_compute|].
  split; apply list_elem_of_In; vm_compute; tauto.
Qed.

(** * Properties of the taxonomy validator *)

Lemma forallb_Forall {A} (f : A → bool) l :
  forallb f l = true ↔ Forall (λ x, f x = true) l.
Proof.
  induction l as [|x l IH]; simpl.
  - split; [constructor | done].
  - rewrite andb_true_iff, IH. split; [intros []; by constructor | by inversion 1].
Qed.

(** A non-empty string over [[a-z0-9_]] matches the pattern. *)
Lemma snake_case_match_az09u name :
  name ≠ [] → Forall (λ c, in_az09u c = true) name → snake_case_match name = true.
Proof.
  intros Hne Hc. unfold snake_case_match.
  destruct (reverse name) as [|c front] eqn:E.
  - apply (f_equal reverse) in E. rewrite reverse_involutive in E. done.
  - apply orb_true_iff. left. unfold all_az09u. apply forallb_Forall.
    rewrite <- E. by apply Forall_reverse.
Qed.

(** The issue texts. *)
Definition duplicate_issue (name : pystr) : pystr :=
  str "Duplicate event name detected: " ++ name.
Definition not_snake_case_issue (name : pystr) : pystr :=
  str "Event name not snake_case: " ++ name.
Definition missing_property_issue (prop name : pystr) : pystr :=
  str "Missing required property '" ++ prop ++ str "' in event: " ++ name.

(** The issues one event contributes, given the names of the events before
    it: duplicate, then pattern, then the missing properties in the fixed
    order. *)
Definition event_issues (earlier : list pystr) (ev : EventDefinition) : list pystr :=
  let name := event_name ev in
  (if bool_decide (name ∈ earlier) then [duplicate_issue name] else [])
  ++ (if snake_case_match name then [] else [not_snake_case_issue name])
  ++ concat (map (λ prop, if bool_decide (prop ∈ map p_name (properties ev))
                          then [] else [missing_property_issue prop name])
               required_props).

Fixpoint issues_from (earlier : list pystr) (evs : list EventDefinition) : list pystr :=
  match evs with
  | [] => []
  | ev :: rest => event_issues earlier ev ++ issues_from (earlier ++ [event_name ev]) rest
  end.

Lemma props_by_name_lookup ps k :
  is_Some (props_by_name ps !! k) ↔ k ∈ map p_name ps.
Proof.
  unfold props_by_name.
  assert (G : ∀ m : gmap pystr Property,
             is_Some (fold_left (λ m p, <[p_name p := p]> m) ps m !! k)
             ↔ k ∈ map p_name ps ∨ is_Some (m !! k)).
  { induction ps as [|p ps IH]; intros m; simpl.
    - rewrite elem_of_nil. tauto.
    - rewrite IH, elem_of_cons, lookup_insert_is_Some.
      destruct (decide (p_name p = k)) as [->|Hne]; [tauto|].
      split; [intros [?|[?|[_ ?]]] | intros [[?|?]|?]]; auto; congruence. }
  rewrite G, lookup_empty. split; [intros [?|Hs] | by left]; [done|].
  by destruct Hs.
Qed.

Lemma fold_left_snoc_if {A B} (f : A → B) (c : A → bool) l acc :
  fold_left (λ acc x, if c x then acc ++ [f x] else acc) l acc
  = acc ++ concat (map (λ x, if c x then [f x] else []) l).
Proof.
  revert acc. induction l as [|x l IH]; intros acc; simpl.
  - by rewrite app_nil_r.
  - rewrite IH. destruct (c x); simpl; [by rewrite <- app_assoc | done].
Qed.

Lemma validate_step_spec (issues : list pystr) (seen : gset pystr) earlier ev :
  (∀ x, x ∈ seen ↔ x ∈ earlier) →
  validate_step (issues, seen) ev
  = (issues ++ event_issues earlier ev, seen ∪ {[event_name ev]}).
Proof.
  intros Hseen. unfold validate_step, event_issues. cbv zeta. f_equal.
  rewrite (fold_left_snoc_if
             (λ prop, missing_property_issue prop (event_name ev))
             (λ prop, negb (bool_decide (is_Some (props_by_name (properties ev) !! prop))))).
  rewrite (bool_decide_ext _ _ (Hseen (event_name ev))).
  assert (E : ∀ prop,
    (if negb (bool_decide (is_Some (props_by_name (properties ev) !! prop)))
     then [missing_property_issue prop (event_name ev)] else [])
    = (if bool_decide (prop ∈ map p_name (properties ev))
       then [] else [missing_property_issue prop (event_name ev)])).
  { intros prop. rewrite (bool_decide_ext _ _ (props_by_name_lookup _ prop)).
    by destruct (bool_decide _). }
  unfold required_props. cbn [map concat]. rewrite !E.
  destruct (bool_decide (event_name ev ∈ earlier)),
    (snake_case_match (event_name ev)); cbn [negb];
    rewrite <- ?app_assoc; reflexivity.
Qed.

(** The validator is one pass over the events that appends, per event, the
    issues of [event_issues] with the names of the earlier events. *)
Lemma validate_taxonomy_spec evs : validate_taxonomy evs = issues_from [] evs.
Proof.
  unfold validate_taxonomy.
  assert (G : ∀ (issues : list pystr) (seen : gset pystr) earlier,
             (∀ x, x ∈ seen ↔ x ∈ earlier) →
             fst (fold_left validate_step evs (issues, seen))
             = issues ++ issues_from earlier evs).
  { induction evs as [|ev evs IH]; intros issues seen earlier Hseen;
      cbn [fold_left issues_from].
    - by rewrite app_nil_r.
    - rewrite (validate_step_spec _ _ earlier) by done.
      rewrite (IH _ _ (earlier ++ [event_name ev])).
      + by rewrite <- app_assoc.
      + intros x. rewrite elem_of_union, elem_of_singleton, elem_of_app, Hseen.
        rewrite list_elem_of_singleton. tauto. }
  rewrite (G [] ∅ []); [done|]. intros x. rewrite elem_of_nil. set_solver.
Qed.

(** The three properties every event of a built plan starts with. *)
Definition mandatory_properties : list Property :=
  [ mkprop "user_id" "string" "Unique identifier for the user" true;
    mkprop "workspace_id" "string" "Workspace or account identifier" true;
    mkprop "timestamp" "datetime" "Event timestamp in ISO 8601" true ].

(** An event the validator can only report as a duplicate. *)
Definition well_named (ev : EventDefinition) : Prop :=
  snake_case_match (event_name ev) = true
  ∧ Forall (λ prop, prop ∈ map p_name (properties ev)) required_props.

Lemma event_issues_well_named earlier ev :
  well_named ev →
  event_issues earlier ev
  = if bool_decide (event_name ev ∈ earlier) then [duplicate_issue (event_name ev)] else [].
Proof.
  intros [Hm Hp]. unfold event_issues. cbv zeta. rewrite Hm.
  unfold required_props in *.
  apply Forall_cons in Hp as [H1 Hp]. apply Forall_cons in Hp as [H2 Hp].
  apply Forall_cons in Hp as [H3 _].
  cbn [map concat].
  rewrite (bool_decide_eq_true_2 _ H1), (bool_decide_eq_true_2 _ H2),
    (bool_decide_eq_true_2 _ H3).
  cbn [app]. by rewrite app_nil_r.
Qed.

Lemma issues_from_well_named earlier evs :
  Forall well_named evs →
  Forall (λ issue, ∃ name, issue = duplicate_issue name) (issues_from earlier evs).
Proof.
  intros Hevs. revert earlier. induction Hevs as [|ev evs Hev _ IH]; intros earlier.
  - constructor.
  - cbn [issues_from]. rewrite event_issues_well_named by done.
    apply Forall_app_2; [|apply IH].
    case_bool_decide; repeat constructor. eauto.
Qed.

Section BuiltPlans.
Context `{CaseTables}.

Lemma event_name_shape fn label :
  _event_name fn label ≠ []
  ∧ Forall (λ c, in_az09u c = true) (_event_name fn label).
Proof.
  unfold _event_name. cbv zeta. split.
  - intros E. apply app_eq_nil in E as [_ E]. by apply app_eq_nil in E as [E _].
  - apply Forall_app_2; [apply slugify_shape|].
    apply Forall_app_2; [by repeat constructor | apply slugify_shape].
Qed.

Lemma default_properties_prefix label :
  ∃ extra, _default_properties label = mandatory_properties ++ extra.
Proof. rewrite default_properties_blocks_aux. eauto. Qed.
End BuiltPlans.

(** What the builder guarantees for each event it creates. *)
Definition built_event `{CaseTables} (ev : EventDefinition) : Prop :=
  (∃ feature label,
      event_name ev = _slugify feature ++ str "__" ++ _slugify label)
  ∧ event_name ev ≠ []
  ∧ Forall (λ c, in_az09u c = true) (event_name ev)
  ∧ snake_case_match (event_name ev) = true
  ∧ map p_name (take 3 (properties ev)) = required_props
  ∧ Forall (λ p, p_required p = true) (take 3 (properties ev)).

Section BuiltPlanFacts.
Context `{CaseTables}.

Lemma built_event_of fn label (ev : EventDefinition) :
  event_name ev = _event_name fn label →
  properties ev = _default_properties label →
  built_event ev.
Proof.
  intros En Ep. destruct (event_name_shape fn label) as [Hne Hc].
  destruct (default_properties_prefix label) as [extra Ex].
  unfold built_event. rewrite En, Ep, Ex.
  split; [by exists fn, label|]. split; [done|]. split; [done|].
  split; [by apply snake_case_match_az09u|].
  split; [reflexivity | by repeat constructor].
Qed.

Lemma built_event_well_named ev : built_event ev → well_named ev.
Proof.
  intros (_ & _ & _ & Hm & Hp & _). split; [done|].
  rewrite <- Hp. apply Forall_forall. intros x Hx.
  rewrite <- (take_drop 3 (properties ev)), map_app. apply elem_of_app. by left.
Qed.

Lemma built_plan_events_built fn fd ka pf fs :
  Forall built_event (events (generate_tracking_plan fn fd ka pf fs)).
Proof.
  rewrite generate_tracking_plan_events. apply Forall_app_2.
  - apply Forall_map, Forall_true. intros stage. by apply (built_event_of fn stage).
  - apply Forall_map, Forall_true. intros action. by apply (built_event_of fn action).
Qed.
End BuiltPlanFacts.

(** C9. On a plan returned by the builder every taxonomy issue starts with
    [Duplicate event name detected: ]: every built event name is two slugs
    joined by [__], hence a non-empty string over [[a-z0-9_]] that the
    pattern accepts, and the properties of every built event start with
    the required [user_id], [workspace_id], [timestamp]. *)
Theorem built_plan_issues_duplicates_only `{CaseTables}
    (feature_name feature_description : pystr) (key_actions : list pystr)
    (platform : pystr) (funnel_stages : option (list pystr)) :
  let plan := generate_tracking_plan feature_name feature_description
                key_actions platform funnel_stages in
  Forall (λ issue, ∃ name, issue = str "Duplicate event name detected: " ++ name)
    (taxonomy_issues plan)
  ∧ Forall (λ issue, is_prefix (str "Duplicate event name detected: ") issue = true)
      (taxonomy_issues plan)
  ∧ Forall built_event (events plan).
Proof.
  intros plan.
  assert (Hb : Forall built_event (events plan)) by apply built_plan_events_built.
  assert (Hd : Forall (λ issue, ∃ name, issue = duplicate_issue name)
                 (taxonomy_issues plan)).
  { change (taxonomy_issues plan) with (validate_taxonomy (events plan)).
    rewrite validate_taxonomy_spec. apply issues_from_well_named.
    eapply Forall_impl; [exact Hb|]. apply built_event_well_named. }
  split; [exact Hd|]. split; [|exact Hb].
  eapply Forall_impl; [exact Hd|]. intros issue [name ->].
  apply is_prefix_spec. by exists name.
Qed.

(** C2, failing input.  The pattern [^[a-z0-9_]+$] is applied with
    [match]; [$] also matches just before a newline that ends the string.
    For the event name [a] followed by a newline, which is not a string
    over [[a-z0-9_]], the validator reports nothing. *)
Theorem validate_taxonomy_trailing_newline :
  let name := str "a" ++ [newline] in
  let ev := {| event_name := name; friendly_name := str "A"; description := empty_str;
               when_triggered := empty_str; platform := str "web";
               properties := mandatory_properties; category := str "funnel" |} in
  all_az09u name = false
  ∧ snake_case_match name = true
  ∧ validate_taxonomy [ev] = []
  ∧ str "Event name not snake_case: " ++ name ∉ validate_taxonomy [ev].
Proof.
  intros name ev.
  assert (E : validate_taxonomy [ev] = []) by (by vm_compute).
  split; [by vm_compute|]. split; [by vm_compute|]. split; [exact E|].
  rewrite E. apply not_elem_of_nil.
Qed.

(** * Properties of the schema manifest renderer *)

Lemma fold_left_pointwise {A B} (f g : A → B → A) l a :
  (∀ a b, f a b = g a b) → fold_left f l a = fold_left g l a.
Proof.
  intros Hfg. revert a. induction l as [|b l IH]; intros a; simpl; [done|].
  by rewrite Hfg, IH.
Qed.

(** C6. The manifest is the dump of [{version: 2, models: [...]}] with one
    model per event in plan order (name = event name, description = event
    description) and one column per property in property order; the test
    list of a column is the single tag [not_null] for a required property
    and empty for an optional one. *)
Theorem schema_manifest_structure `{YamlDumper} (plan : TrackingPlan) :
  let column := λ p : Property,
    YDict [ (str "name", YStr (p_name p));
            (str "description", YStr (p_description p));
            (str "tests", YList (if p_required p then [YStr (str "not_null")] else [])) ] in
  let model := λ ev : EventDefinition,
    YDict [ (str "name", YStr (event_name ev));
            (str "description", YStr (description ev));
            (str "columns", YList (map column (properties ev))) ] in
  tracking_plan_to_dbt_yaml plan
  = safe_dump (YDict [ (str "version", YInt 2);
                       (str "models", YList (map model (events plan))) ])
  ∧ dbt_schema plan
    = YDict [ (str "version", YInt 2); (str "models", YList (map model (events plan))) ].
Proof.
  intros column model.
  assert (E : dbt_schema plan
              = YDict [ (str "version", YInt 2);
                        (str "models", YList (map model (events plan))) ]).
  { unfold dbt_schema. cbv zeta.
    rewrite (fold_left_pointwise _ (λ models ev, models ++ [model ev])).
    - by rewrite (fold_left_snoc_map model).
    - intros models ev. unfold model.
      by rewrite (fold_left_snoc_map column_entry). }
  split; [|exact E]. unfold tracking_plan_to_dbt_yaml. by rewrite E.
Qed.

(** * Properties of the sample generator *)

Lemma dict_get_set_ne {V} (k k' : pystr) (v : V) d :
  k ≠ k' → dict_get k (dict_set k' v d) = dict_get k d.
Proof.
  intros Hne. induction d as [|[k0 v0] d IH]; simpl.
  - rewrite bool_decide_eq_false_2; [done | congruence].
  - case_bool_decide as E1; simpl.
    + subst k0. by rewrite !bool_decide_eq_false_2 by congruence.
    + case_bool_decide; [done | exact IH].
Qed.

Section SampleFacts.
Context {G : Type} `{RandomSource G} `{Clock}.

(** [m] returns from every generator state, with a result satisfying [P]. *)
Definition returns {A} (m : rand G A) (P : A → Prop) : Prop :=
  ∀ g, ∃ a g', m g = inr (a, g') ∧ P a.

Lemma returns_ret {A} (a : A) (P : A → Prop) : P a → returns (ret (G := G) a) P.
Proof. intros Ha g. by exists a, g. Qed.

Lemma returns_bind {A B} (m : rand G A) (k : A → rand G B) (P : A → Prop) (Q : B → Prop) :
  returns m P → (∀ a, P a → returns (k a) Q) → returns (bind m k) Q.
Proof.
  intros Hm Hk g. destruct (Hm g) as (a & g' & E & Ha).
  destruct (Hk a Ha g') as (b & g'' & E' & Hb).
  exists b, g''. unfold bind. by rewrite E.
Qed.

Lemma returns_randint a b : returns (randint a b) (λ _, True).
Proof.
  intros g. unfold randint. destruct (randbelow (b - a + 1) g) as [k g'].
  by exists (a + k), g'.
Qed.

Lemma returns_choice {A} (seq : list A) :
  seq ≠ [] → returns (choice seq) (λ x, x ∈ seq).
Proof.
  intros Hne g. destruct seq as [|first rest]; [done|]. unfold choice.
  pose proof (randbelow_lt (N.of_nat (length (first :: rest))) g) as Hlt.
  destruct (randbelow _ g) as [i g']. do 2 eexists. split; [done|].
  apply list_elem_of_In, nth_In. simpl in *. lia.
Qed.

Lemma choice_empty {A} (g : G) : choice (A := A) [] g = inl IndexError.
Proof. reflexivity. Qed.

Lemma returns_fill_property ts payload p :
  returns (fill_property ts payload p)
    (λ payload', p_name p ≠ str "event_name" →
                 dict_get (str "event_name") payload'
                 = dict_get (str "event_name") payload).
Proof.
  unfold fill_property.
  repeat case_bool_decide;
    first [ eapply returns_bind;
            [ first [ apply returns_randint | by apply returns_choice ] | ];
            intros ? _; apply returns_ret
          | apply returns_ret ];
    intros Hne; apply dict_get_set_ne; congruence.
Qed.

Lemma returns_fill_properties ts payload ps :
  returns (fill_properties ts payload ps)
    (λ payload', str "event_name" ∉ map p_name ps →
                 dict_get (str "event_name") payload'
                 = dict_get (str "event_name") payload).
Proof.
  revert payload. induction ps as [|p ps IH]; intros payload; cbn [fill_properties].
  - by apply returns_ret.
  - eapply returns_bind; [apply returns_fill_property|].
    intros payload1 H1. intros g. destruct (IH payload1 g) as (a & g' & E & Ha).
    exists a, g'. split; [done|]. cbn [map]. rewrite not_elem_of_cons.
    intros [Hp Hps]. rewrite Ha by done. apply H1. congruence.
Qed.

(** A record drawn for [plan]: it comes from one of the events, and keeps
    that event's name unless a property of the event is itself called
    [event_name]. *)
Definition record_of (plan : TrackingPlan) (r : list (pystr * pyvalue)) : Prop :=
  ∃ ev, ev ∈ events plan
        ∧ (str "event_name" ∉ map p_name (properties ev) →
           dict_get (str "event_name") r = Some (VStr (event_name ev))).

Lemma returns_sample_one plan now acc :
  events plan ≠ [] →
  returns (sample_one plan now acc) (λ acc', ∃ r, acc' = acc ++ [r] ∧ record_of plan r).
Proof.
  intros Hne. unfold sample_one.
  eapply returns_bind; [by apply returns_choice|]. intros ev Hev.
  eapply returns_bind; [apply returns_randint|]. intros k _. cbv zeta.
  eapply returns_bind; [apply returns_fill_properties|]. intros payload Hp.
  apply returns_ret. exists payload. split; [done|]. exists ev. split; [done|].
  intros Hn. rewrite Hp by done. reflexivity.
Qed.

Lemma returns_sample_loop plan now count acc :
  events plan ≠ [] ∨ count = 0%nat →
  returns (sample_loop plan now count acc)
    (λ acc', ∃ recs, acc' = acc ++ recs ∧ length recs = count
                     ∧ Forall (record_of plan) recs).
Proof.
  intros Hne. revert acc. induction count as [|count IH]; intros acc; cbn [sample_loop].
  - apply returns_ret. exists []. by rewrite app_nil_r.
  - destruct Hne as [Hne|?]; [|done].
    eapply returns_bind; [by apply returns_sample_one|]. intros acc1 (r & -> & Hr).
    intros g. destruct (IH (or_introl Hne) (acc ++ [r]) g) as (a & g' & E & recs & -> & Hl & Hrecs).
    exists ((acc ++ [r]) ++ recs), g'. split; [done|]. exists (r :: recs).
    split; [by rewrite <- app_assoc|]. split; [simpl; lia | by constructor].
Qed.
End SampleFacts.

Lemma dict_get_set_eq {V} (k : pystr) (v : V) d :
  dict_get k (dict_set k v d) = Some v.
Proof.
  induction d as [|[k0 v0] d IH]; simpl.
  - by rewrite bool_decide_eq_true_2.
  - case_bool_decide as E1; simpl.
    + by rewrite bool_decide_eq_true_2.
    + by rewrite bool_decide_eq_false_2.
Qed.

(** The record the loop body builds in one pass: [random.choice] draws
    [ev] from [plan.events], [random.randint(0, 60*24)] draws the minutes
    [k], and the loop over [ev]'s properties, started on the payload
    [{event_name: ev.event_name}], ends with [r]. *)
Definition drawn_for {G : Type} `{RandomSource G} `{Clock}
    (plan : TrackingPlan) (now : datetime) (ev : EventDefinition)
    (r : list (pystr * pyvalue)) : Prop :=
  ∃ (k : N) (g0 g1 g2 g3 : G),
    choice (events plan) g0 = inr (ev, g1)
    ∧ randint 0 (60 * 24) g1 = inr (k, g2)
    ∧ k ≤ 60 * 24
    ∧ fill_properties (minus_minutes now k) [(str "event_name", VStr (event_name ev))]
        (properties ev) g2 = inr (r, g3).

Section SampleRuns.
Context {G : Type} `{RandomSource G} `{Clock}.

Lemma randint_run (a b : N) (g : G) :
  ∃ k g', randint a b g = inr (k, g') ∧ a ≤ k ∧ k ≤ a + (b - a).
Proof.
  unfold randint. pose proof (randbelow_lt (b - a + 1) g) as Hlt.
  destruct (randbelow (b - a + 1) g) as [k g']. simpl in Hlt.
  exists (a + k), g'. split; [done|]. lia.
Qed.

Lemma fill_property_event_name ts payload p (g : G) payload' g' :
  fill_property ts payload p g = inr (payload', g') →
  dict_get (str "event_name") payload'
  = if bool_decide (p_name p = str "event_name") then Some VNone
    else dict_get (str "event_name") payload.
Proof.
  intros E. case_bool_decide as Hp.
  - unfold fill_property in E. rewrite Hp in E.
    rewrite !bool_decide_eq_false_2 in E
      by (intros E'; vm_compute in E'; discriminate E').
    injection E as <- _. apply dict_get_set_eq.
  - destruct (returns_fill_property ts payload p g) as (a & g1 & E1 & Ha).
    rewrite E in E1. injection E1 as <- _. by apply Ha.
Qed.

Lemma fill_properties_event_name ts payload ps (g : G) r g' :
  fill_properties ts payload ps g = inr (r, g') →
  dict_get (str "event_name") r
  = if bool_decide (str "event_name" ∈ map p_name ps) then Some VNone
    else dict_get (str "event_name") payload.
Proof.
  revert payload g. induction ps as [|p ps IH]; intros payload g; cbn [fill_properties map].
  - intros E. injection E as <- _. rewrite bool_decide_eq_false_2; [done|].
    apply not_elem_of_nil.
  - unfold bind. destruct (fill_property ts payload p g) as [e|[payload1 g1]] eqn:E1; [done|].
    intros E. rewrite (IH _ _ E). rewrite (fill_property_event_name _ _ _ _ _ _ E1).
    repeat case_bool_decide; try done; exfalso;
      repeat match goal with
             | Hn : _ ∉ _ :: _ |- _ => apply not_elem_of_cons in Hn as [? ?]
             | Hin : _ ∈ _ :: _ |- _ => apply elem_of_cons in Hin as [?|?]
             end; first [congruence | done].
Qed.

Lemma sample_one_run plan now acc (g : G) :
  events plan ≠ [] →
  ∃ ev r g', sample_one plan now acc g = inr (acc ++ [r], g')
             ∧ ev ∈ events plan ∧ drawn_for plan now ev r.
Proof.
  intros Hne.
  destruct (returns_choice (events plan) Hne g) as (ev & g1 & E1 & Hev).
  destruct (randint_run 0 (60 * 24) g1) as (k & g2 & E2 & _ & Hk).
  destruct (returns_fill_properties (minus_minutes now k)
              [(str "event_name", VStr (event_name ev))] (properties ev) g2)
    as (r & g3 & E3 & _).
  exists ev, r, g3. split; [|split; [done|]].
  - unfold sample_one, bind. rewrite E1, E2. cbv zeta. by rewrite E3.
  - exists k, g, g1, g2, g3. repeat split; try done; lia.
Qed.

Lemma sample_loop_run plan now count acc (g : G) :
  events plan ≠ [] ∨ count = 0%nat →
  ∃ recs g', sample_loop plan now count acc g = inr (acc ++ recs, g')
             ∧ length recs = count
             ∧ Forall (λ r, ∃ ev, ev ∈ events plan ∧ drawn_for plan now ev r) recs.
Proof.
  intros Hne. revert acc g. induction count as [|count IH]; intros acc g; cbn [sample_loop].
  - exists [], g. by rewrite app_nil_r.
  - destruct Hne as [Hne|?]; [|done].
    destruct (sample_one_run plan now acc g Hne) as (ev & r & g1 & E1 & Hev & Hr).
    destruct (IH (or_introl Hne) (acc ++ [r]) g1) as (recs & g' & E & Hl & Hrecs).
    exists (r :: recs), g'. split; [|split].
    + unfold bind. rewrite E1, E. by rewrite <- app_assoc.
    + simpl. lia.
    + constructor; [by exists ev | done].
Qed.
End SampleRuns.

(** C5, as the code has it.  When [plan.events] is non-empty (or no record
    is asked for) the generator returns exactly [n] records for [n >= 0].
    Each record is the payload the loop body built for the event [ev] that
    [random.choice] drew for it from [plan.events]; its [event_name] field
    is [ev]'s name when no property of [ev] is itself called [event_name],
    and [None] otherwise.  So when no event of the plan has such a property,
    the [event_name] field of every record is the name of an event of the
    plan. *)
Theorem generate_sample_events_records {G : Type} `{RandomSource G} `{Clock}
    (plan : TrackingPlan) (n : Z) (now : datetime) (g : G) :
  (0 ≤ n)%Z →
  events plan ≠ [] ∨ n = 0%Z →
  ∃ recs g',
    generate_sample_events plan n now g = inr (recs, g')
    ∧ length recs = Z.to_nat n
    ∧ Forall (λ r, ∃ ev,
                ev ∈ events plan
                ∧ drawn_for plan now ev r
                ∧ dict_get (str "event_name") r
                  = Some (if bool_decide (str "event_name" ∈ map p_name (properties ev))
                          then VNone else VStr (event_name ev)))
        recs
    ∧ ((∀ ev, ev ∈ events plan → str "event_name" ∉ map p_name (properties ev)) →
       Forall (λ r, ∃ s, dict_get (str "event_name") r = Some (VStr s)
                         ∧ s ∈ map event_name (events plan))
         recs).
Proof.
  intros Hn Hne. unfold generate_sample_events.
  assert (Hc : events plan ≠ [] ∨ Z.to_nat n = 0%nat).
  { destruct Hne as [?| ->]; [by left | by right]. }
  destruct (sample_loop_run plan now (Z.to_nat n) [] g Hc) as (recs & g' & E & Hl & Hrecs).
  assert (Hall : Forall (λ r, ∃ ev,
                ev ∈ events plan
                ∧ drawn_for plan now ev r
                ∧ dict_get (str "event_name") r
                  = Some (if bool_decide (str "event_name" ∈ map p_name (properties ev))
                          then VNone else VStr (event_name ev))) recs).
  { eapply Forall_impl; [exact Hrecs|]. intros r (ev & Hev & Hd).
    exists ev. split; [done|]. split; [done|].
    destruct Hd as (k & g0 & g1 & g2 & g3 & _ & _ & _ & Ef).
    rewrite (fill_properties_event_name _ _ _ _ _ _ Ef). simpl.
    by case_bool_decide. }
  exists recs, g'. split; [exact E|]. split; [done|]. split; [exact Hall|].
  intros Hplain. eapply Forall_impl; [exact Hall|]. intros r (ev & Hev & _ & Hf).
  exists (event_name ev). split.
  - rewrite Hf. by rewrite bool_decide_eq_false_2 by by apply Hplain.
  - apply list_elem_of_In, in_map, list_elem_of_In, Hev.
Qed.

Lemma generate_sample_events_records_witness :
  let plan := @generate_tracking_plan ascii_tables (str "share") empty_str
                [str "click invite"] (str "web") None in
  ∃ recs g',
    @generate_sample_events N lcg_source minute_clock plan 3 0%Z 7 = inr (recs, g')
    ∧ length recs = 3%nat
    ∧ Forall (λ r, ∃ ev,
                ev ∈ events plan
                ∧ @drawn_for N lcg_source minute_clock plan 0%Z ev r
                ∧ dict_get (str "event_name") r
                  = Some (if bool_decide (str "event_name" ∈ map p_name (properties ev))
                          then VNone else VStr (event_name ev)))
        recs
    ∧ ((∀ ev, ev ∈ events plan → str "event_name" ∉ map p_name (properties ev)) →
       Forall (λ r, ∃ s, dict_get (str "event_name") r = Some (VStr s)
                         ∧ s ∈ map event_name (events plan))
         recs).
Proof.
  intros plan.
  apply (@generate_sample_events_records N lcg_source minute_clock plan 3 0%Z 7).
  - lia.
  - left. intros E. vm_compute in E. discriminate E.
Defined.

(** C5 fails as stated at two inputs.  With an empty [events] list and
    [n = 1], [random.choice] raises and no record is returned.  With an
    event that has a property called [event_name], the assignment for that
    property overwrites the field and the record's [event_name] is [None]. *)
Lemma generate_sample_events_not_for_every_plan :
  let empty_plan :=
    {| feature_name := str "f"; feature_description := empty_str;
       plan_platform := str "web"; events := []; taxonomy_issues := [] |} in
  let odd_event :=
    {| event_name := str "f__view"; friendly_name := str "f - View";
       description := empty_str; when_triggered := empty_str; platform := str "web";
       properties := [mkprop "event_name" "string" "shadows the name" false];
       category := str "funnel" |} in
  let odd_plan :=
    {| feature_name := str "f"; feature_description := empty_str;
       plan_platform := str "web"; events := [odd_event]; taxonomy_issues := [] |} in
  @generate_sample_events N lcg_source minute_clock empty_plan 1 0%Z 0 = inl IndexError
  ∧ (¬ ∃ recs g',
        @generate_sample_events N lcg_source minute_clock empty_plan 1 0%Z 0
        = inr (recs, g') ∧ length recs = 1%nat)
  ∧ (∃ g', @generate_sample_events N lcg_source minute_clock odd_plan 1 0%Z 0
           = inr ([[(str "event_name", VNone)]], g'))
  ∧ (¬ ∃ recs g',
        @generate_sample_events N lcg_source minute_clock odd_plan 1 0%Z 0
        = inr (recs, g')
        ∧ Forall (λ r, ∃ ev, ev ∈ events odd_plan
                             ∧ dict_get (str "event_name") r = Some (VStr (event_name ev)))
            recs).
Proof.
  intros empty_plan odd_event odd_plan.
  assert (E1 : @generate_sample_events N lcg_source minute_clock empty_plan 1 0%Z 0
               = inl IndexError) by reflexivity.
  assert (E2 : ∃ g', @generate_sample_events N lcg_source minute_clock odd_plan 1 0%Z 0
                     = inr ([[(str "event_name", VNone)]], g')).
  { eexists. vm_compute. reflexivity. }
  split; [exact E1|]. split.
  { intros (recs & g' & E & _). rewrite E1 in E. discriminate E. }
  split; [exact E2|].
  intros (recs & g' & E & Hr). destruct E2 as [g2 E2]. rewrite E2 in E.
  injection E as <- _. apply Forall_cons in Hr as [(ev & _ & Hev) _].
  vm_compute in Hev. discriminate Hev.
Qed.

(** C10. A built plan has at least one event, and its first event is a
    funnel event: unset or empty funnel stages are replaced by the default
    three.  So [random.choice] over its events never raises and the sample
    generator returns for every [n]. *)
Theorem built_plan_events_nonempty `{CaseTables} {G : Type} `{RandomSource G} `{Clock}
    (feature_name feature_description : pystr) (key_actions : list pystr)
    (platform : pystr) (funnel_stages : option (list pystr)) :
  let plan := generate_tracking_plan feature_name feature_description
                key_actions platform funnel_stages in
  events plan ≠ []
  ∧ (∃ ev, head (events plan) = Some ev ∧ category ev = str "funnel")
  ∧ (∀ g : G, ∃ ev g', choice (events plan) g = inr (ev, g') ∧ ev ∈ events plan)
  ∧ (∀ (n : Z) (now : datetime) (g : G), ∃ recs g',
        generate_sample_events plan n now g = inr (recs, g')
        ∧ length recs = Z.to_nat n).
Proof.
  intros plan.
  assert (Hh : ∃ ev, head (events plan) = Some ev ∧ category ev = str "funnel").
  { unfold plan. rewrite generate_tracking_plan_events.
    destruct funnel_stages as [[|s r]|]; simpl; eauto. }
  assert (Hne : events plan ≠ []).
  { destruct Hh as (ev & Hev & _). intros E. rewrite E in Hev. discriminate Hev. }
  split; [exact Hne|]. split; [exact Hh|]. split.
  - intros g. destruct (returns_choice (events plan) Hne g) as (ev & g' & E & Hev).
    by exists ev, g'.
  - intros n now g. unfold generate_sample_events.
    destruct (returns_sample_loop plan now (Z.to_nat n) [] (or_introl Hne) g)
      as (acc & g' & E & recs & -> & Hl & _).
    exists recs, g'. by rewrite E.
Qed.

(** * The renderers do not write to the plan *)

Lemma reify_prefix depth (h h' : list pyobj) a v :
  h `prefix_of` h' → reify depth h a = Some v → reify depth h' a = Some v.
Proof.
  intros Hp. revert a v. induction depth as [|depth IH]; intros a v; [done|].
  cbn [reify]. destruct (h !! a) as [o|] eqn:E; [|done].
  rewrite (prefix_lookup_Some _ _ _ _ E Hp).
  destruct o as [s|z|b| |items|entries]; try done.
  - destruct (mapM (reify depth h) items) as [vs|] eqn:Em; [|done].
    intros [= <-]. apply mapM_Some in Em.
    assert (Em' : mapM (reify depth h') items = Some vs).
    { apply mapM_Some. eapply Forall2_impl; [exact Em|]. intros x y. apply IH. }
    by rewrite Em'.
  - destruct (mapM (λ e, pair (fst e) <$> reify depth h (snd e)) entries)
      as [vs|] eqn:Em; [|done].
    intros [= <-]. apply mapM_Some in Em.
    assert (Em' : mapM (λ e, pair (fst e) <$> reify depth h' (snd e)) entries = Some vs).
    { apply mapM_Some. eapply Forall2_impl; [exact Em|]. intros x y Hx.
      cbv beta in Hx |- *.
      destruct (reify depth h (snd x)) as [w|] eqn:Ew; [|discriminate Hx].
      by rewrite (IH _ _ Ew). }
    by rewrite Em'.
Qed.

Section Frame.
Context {G : Type} `{RandomSource G} `{Clock} `{YamlDumper} `{Formatter}.

(** The store the renderer is started in. *)
Variable h0 : list pyobj.

(** An address that did not exist when the renderer started. *)
Definition fresh (a : addr) : Prop := (length h0 ≤ a)%nat.

(** [m] leaves every object of [h0] as it was, and its result satisfies
    [Q]. *)
Definition keeps {A} (m : prog G A) (Q : A → Prop) : Prop :=
  ∀ st, h0 `prefix_of` fst st →
        h0 `prefix_of` fst (fst (m st)) ∧ ∀ a, snd (m st) = Ok a → Q a.

Lemma keeps_ret {A} (a : A) (Q : A → Prop) : Q a → keeps (hret a) Q.
Proof. intros Ha st Hst. split; [done|]. by intros ? [= <-]. Qed.

Lemma keeps_raise {A} e (Q : A → Prop) : keeps (hraise e) Q.
Proof. intros st Hst. split; [done|]. by intros ? [=]. Qed.

Lemma keeps_out_of_fuel {A} (Q : A → Prop) : keeps out_of_fuel Q.
Proof. intros st Hst. split; [done|]. by intros ? [=]. Qed.

Lemma keeps_bind {A B} (m : prog G A) (k : A → prog G B) (P : A → Prop) (Q : B → Prop) :
  keeps m P → (∀ a, P a → keeps (k a) Q) → keeps (hbind m k) Q.
Proof.
  intros Hm Hk st Hst. destruct (Hm st Hst) as [Hp Hr]. unfold hbind.
  destruct (m st) as [st' [a|e|]]; simpl in *.
  - by apply Hk; [apply Hr|].
  - split; [done|]. by intros ? [=].
  - split; [done|]. by intros ? [=].
Qed.

Lemma keeps_weaken {A} (m : prog G A) (P Q : A → Prop) :
  keeps m P → (∀ a, P a → Q a) → keeps m Q.
Proof. intros Hm HPQ st Hst. destruct (Hm st Hst). split; auto. Qed.

Lemma keeps_get_store : keeps get_store (λ _, True).
Proof. intros st Hst. by split. Qed.

Lemma keeps_alloc o : keeps (alloc o) fresh.
Proof.
  intros [h g] Hst. simpl in *. split; [by apply prefix_app_r|].
  intros a [= <-]. unfold fresh. by apply prefix_length.
Qed.

Lemma keeps_load a : keeps (load a) (λ _, True).
Proof.
  intros [h g] Hst. unfold load. simpl. by destruct (h !! a); split.
Qed.

(** Writing to a fresh address leaves [h0] alone. *)
Lemma keeps_put a o : fresh a → keeps (put a o) (λ _, True).
Proof.
  intros Ha [h g] Hst. simpl in *. destruct Hst as [ext ->]. split; [|done].
  rewrite insert_app_r_alt by exact Ha. by apply prefix_app_r.
Qed.

Lemma keeps_draw {A} (m : rand G A) : keeps (draw m) (λ _, True).
Proof.
  intros [h g] Hst. unfold draw. simpl. by destruct (m g) as [e|[a g']]; split.
Qed.
End Frame.

(** One step of a proof that a program keeps the initial store: a rule for
    the head operation, a case split on the object that was read, or the
    bind rule. *)
Ltac keeps_rule :=
  first
    [ apply keeps_ret; try exact I
    | apply keeps_raise
    | apply keeps_out_of_fuel
    | apply keeps_alloc
    | apply keeps_load
    | apply keeps_get_store
    | apply keeps_draw
    | apply keeps_put; assumption ].

Ltac keeps_derived := fail.

Ltac keeps_step :=
  first
    [ progress cbv zeta
    | keeps_rule
    | keeps_derived
    | match goal with
      | |- keeps _ (match ?x with _ => _ end) _ => destruct x
      end
    | eapply keeps_bind; [ | intros ? ? ] ].

Ltac keeps_auto := repeat keeps_step.

Section FrameRules.
Context {G : Type} `{RandomSource G} `{Clock} `{YamlDumper} `{Formatter}.
Variable h0 : list pyobj.

Lemma keeps_new_str s : keeps (G := G) h0 (new_str s) (fresh h0).
Proof. apply keeps_alloc. Qed.

Lemma keeps_getitem d k : keeps (G := G) h0 (getitem d k) (λ _, True).
Proof. unfold getitem. keeps_auto. Qed.

Lemma keeps_get_default d k dflt : keeps (G := G) h0 (get_default d k dflt) (λ _, True).
Proof. unfold get_default. keeps_auto. Qed.

Lemma keeps_append l x : fresh h0 l → keeps (G := G) h0 (append l x) (λ _, True).
Proof. intros Hl. unfold append. keeps_auto. Qed.

Lemma keeps_setitem d k v : fresh h0 d → keeps (G := G) h0 (setitem d k v) (λ _, True).
Proof. intros Hd. unfold setitem. keeps_auto. Qed.

Lemma keeps_setitem_obj d key v : fresh h0 d → keeps (G := G) h0 (setitem_obj d key v) (λ _, True).
Proof. intros Hd. unfold setitem_obj. keeps_auto; by apply keeps_setitem. Qed.

Lemma keeps_truthy a : keeps (G := G) h0 (truthy a) (λ _, True).
Proof. unfold truthy. keeps_auto. Qed.

Lemma keeps_format a : keeps (G := G) h0 (format a) (λ _, True).
Proof. unfold format. keeps_auto. Qed.

Lemma keeps_eq_str a s : keeps (G := G) h0 (eq_str a s) (λ _, True).
Proof. unfold eq_str. keeps_auto. Qed.

Lemma keeps_iter_next it i : keeps (G := G) h0 (iter_next it i) (λ _, True).
Proof. unfold iter_next, new_str. keeps_auto. Qed.

Lemma keeps_for_from fuel it i body :
  (∀ x, keeps (G := G) h0 (body x) (λ _, True)) →
  keeps (G := G) h0 (for_from fuel it i body) (λ _, True).
Proof.
  intros Hbody. revert i. induction fuel as [|fuel IH]; intros i; cbn [for_from].
  - apply keeps_out_of_fuel.
  - eapply keeps_bind; [apply keeps_iter_next|]. intros [x|] _.
    + eapply keeps_bind; [apply Hbody|]. intros _ _. apply IH.
    + by apply keeps_ret.
Qed.

Lemma keeps_for_each fuel it body :
  (∀ x, keeps (G := G) h0 (body x) (λ _, True)) →
  keeps (G := G) h0 (for_each fuel it body) (λ _, True).
Proof. apply keeps_for_from. Qed.

Lemma keeps_repeat_times count body :
  keeps (G := G) h0 body (λ _, True) → keeps (G := G) h0 (repeat_times count body) (λ _, True).
Proof.
  intros Hbody. induction count as [|count IH]; cbn [repeat_times].
  - by apply keeps_ret.
  - eapply keeps_bind; [exact Hbody|]. intros _ _. exact IH.
Qed.

Lemma keeps_load_strs items : keeps (G := G) h0 (load_strs items) (λ _, True).
Proof.
  induction items as [|a items IH]; cbn [load_strs].
  - by apply keeps_ret.
  - eapply keeps_bind; [apply keeps_load|]. intros o _.
    destruct o; try apply keeps_raise.
    eapply keeps_bind; [exact IH|]. intros ss _. by apply keeps_ret.
Qed.

Lemma keeps_join_obj sep lines : keeps (G := G) h0 (join_obj sep lines) (λ _, True).
Proof.
  unfold join_obj. eapply keeps_bind; [apply keeps_load|]. intros o _.
  destruct o; try apply keeps_raise.
  eapply keeps_bind; [apply keeps_load_strs|]. intros ss _. by apply keeps_ret.
Qed.

Lemma keeps_append_str lines s :
  fresh h0 lines → keeps (G := G) h0 (append_str lines s) (λ _, True).
Proof.
  intros Hl. unfold append_str.
  eapply keeps_bind; [apply keeps_new_str|]. intros x _. by apply keeps_append.
Qed.

Lemma keeps_field d k : keeps (G := G) h0 (field d k) (λ _, True).
Proof.
  unfold field. eapply keeps_bind; [apply keeps_getitem|]. intros v _.
  apply keeps_format.
Qed.

Lemma keeps_field_default d k dflt : keeps (G := G) h0 (field_default d k dflt) (λ _, True).
Proof.
  unfold field_default. eapply keeps_bind; [apply keeps_new_str|]. intros x _.
  eapply keeps_bind; [apply keeps_get_default|]. intros v _. apply keeps_format.
Qed.

Lemma keeps_choice_obj seq : keeps (G := G) h0 (choice_obj seq) (λ _, True).
Proof.
  unfold choice_obj. eapply keeps_bind; [apply keeps_load|]. intros o _.
  destruct o; try apply keeps_raise.
  - eapply keeps_bind; [apply keeps_draw|]. intros c _.
    eapply keeps_weaken; [apply keeps_new_str | done].
  - apply keeps_draw.
  - eapply keeps_bind; [apply keeps_draw|]. intros c _. apply keeps_raise.
Qed.

Lemma keeps_safe_dump_obj fuel schema : keeps (G := G) h0 (safe_dump_obj fuel schema) (λ _, True).
Proof.
  unfold safe_dump_obj. eapply keeps_bind; [apply keeps_get_store|]. intros h _.
  destruct (reify fuel h schema); [by apply keeps_ret | apply keeps_out_of_fuel].
Qed.
End FrameRules.

Ltac keeps_derived ::=
  first
    [ apply keeps_new_str
    | apply keeps_getitem
    | apply keeps_get_default
    | apply keeps_truthy
    | apply keeps_format
    | apply keeps_eq_str
    | apply keeps_field
    | apply keeps_field_default
    | apply keeps_choice_obj
    | apply keeps_join_obj
    | apply keeps_safe_dump_obj
    | apply keeps_append; assumption
    | apply keeps_append_str; assumption
    | apply keeps_setitem; assumption
    | apply keeps_setitem_obj; assumption ].

Section RendererFrames.
Context {G : Type} `{RandomSource G} `{Clock} `{YamlDumper} `{Formatter}.
Variable h0 : list pyobj.

Lemma keeps_markdown_property lines p :
  fresh h0 lines → keeps (G := G) h0 (markdown_property lines p) (λ _, True).
Proof. intros Hl. unfold markdown_property. keeps_auto. Qed.

Lemma keeps_markdown_event fuel lines ev :
  fresh h0 lines → keeps (G := G) h0 (markdown_event fuel lines ev) (λ _, True).
Proof.
  intros Hl. unfold markdown_event. keeps_auto.
  apply keeps_for_each. intros p. by apply keeps_markdown_property.
Qed.

Lemma keeps_tracking_plan_to_markdown fuel plan :
  keeps (G := G) h0 (tracking_plan_to_markdown fuel plan) (λ _, True).
Proof.
  unfold tracking_plan_to_markdown. keeps_auto.
  - apply keeps_for_each. intros ev. by apply keeps_markdown_event.
  - apply keeps_for_each. intros issue. keeps_auto.
  - exact I.
Qed.

Lemma keeps_dbt_column cols p :
  fresh h0 cols → keeps (G := G) h0 (dbt_column cols p) (λ _, True).
Proof. intros Hc. unfold dbt_column. keeps_auto. Qed.

Lemma keeps_dbt_model fuel models ev :
  fresh h0 models → keeps (G := G) h0 (dbt_model fuel models ev) (λ _, True).
Proof.
  intros Hm. unfold dbt_model. keeps_auto.
  apply keeps_for_each. intros p. by apply keeps_dbt_column.
Qed.

Lemma keeps_tracking_plan_to_dbt_yaml_obj fuel plan :
  keeps (G := G) h0 (tracking_plan_to_dbt_yaml_obj fuel plan) (λ _, True).
Proof.
  unfold tracking_plan_to_dbt_yaml_obj. keeps_auto.
  apply keeps_for_each. intros ev. by apply keeps_dbt_model.
Qed.

Lemma keeps_sample_property ts payload p :
  fresh h0 payload → keeps (G := G) h0 (sample_property ts payload p) (λ _, True).
Proof. intros Hp. unfold sample_property. keeps_auto. Qed.

Lemma keeps_sample_event fuel now plan events_list :
  fresh h0 events_list →
  keeps (G := G) h0 (sample_event fuel now plan events_list) (λ _, True).
Proof.
  intros He. unfold sample_event. keeps_auto.
  apply keeps_for_each. intros p. by apply keeps_sample_property.
Qed.

Lemma keeps_generate_sample_events_obj fuel plan n now :
  keeps (G := G) h0 (generate_sample_events_obj fuel plan n now) (λ _, True).
Proof.
  unfold generate_sample_events_obj. keeps_auto.
  apply keeps_repeat_times. by apply keeps_sample_event.
Qed.
End RendererFrames.

(** C8. Started in any store, with any reference as the plan, each of the
    three renderers leaves every object that existed before the call as it
    was: they write only to objects they created themselves.  In
    particular the value reachable from the plan is the same after the
    call as before. *)
Theorem renderers_leave_plan_unchanged
    {G : Type} `{RandomSource G} `{Clock} `{YamlDumper} `{Formatter}
    (h : list pyobj) (g : G) (plan : addr) (fuel : nat) (n : Z) (now : datetime) :
  let after_report := fst (fst (tracking_plan_to_markdown fuel plan (h, g))) in
  let after_manifest := fst (fst (tracking_plan_to_dbt_yaml_obj fuel plan (h, g))) in
  let after_samples := fst (fst (generate_sample_events_obj fuel plan n now (h, g))) in
  (∀ a o, h !! a = Some o →
          after_report !! a = Some o
          ∧ after_manifest !! a = Some o
          ∧ after_samples !! a = Some o)
  ∧ (∀ depth value, reify depth h plan = Some value →
          reify depth after_report plan = Some value
          ∧ reify depth after_manifest plan = Some value
          ∧ reify depth after_samples plan = Some value).
Proof.
  intros after_report after_manifest after_samples.
  assert (Hr : h `prefix_of` after_report).
  { apply (keeps_tracking_plan_to_markdown h fuel plan (h, g)). done. }
  assert (Hm : h `prefix_of` after_manifest).
  { apply (keeps_tracking_plan_to_dbt_yaml_obj h fuel plan (h, g)). done. }
  assert (Hs : h `prefix_of` after_samples).
  { apply (keeps_generate_sample_events_obj h fuel plan n now (h, g)). done. }
  split.
  - intros a o Ha. repeat split; eapply prefix_lookup_Some; eauto.
  - intros depth value Hv. repeat split; eapply reify_prefix; eauto.
Qed.

Lemma renderers_leave_plan_unchanged_witness :
  let plan := @generate_tracking_plan ascii_tables (str "share") empty_str
                [str "click invite"] (str "web") None in
  let h := fst (store_value (encode_plan plan) []) in
  let root := snd (store_value (encode_plan plan) []) in
  reify 6 h root = Some (encode_plan plan)
  ∧ reify 6 (fst (fst (@tracking_plan_to_markdown N opaque_formatter 100 root (h, 7))))
      root = Some (encode_plan plan)
  ∧ reify 6 (fst (fst (@tracking_plan_to_dbt_yaml_obj N flow_dumper 100 root (h, 7))))
      root = Some (encode_plan plan)
  ∧ reify 6 (fst (fst (@generate_sample_events_obj N lcg_source minute_clock 100
                         root 2 0%Z (h, 7))))
      root = Some (encode_plan plan).
Proof.
  intros plan h root.
  assert (E : reify 6 h root = Some (encode_plan plan)) by (vm_compute; reflexivity).
  split; [exact E|].
  exact (proj2 (@renderers_leave_plan_unchanged N lcg_source minute_clock flow_dumper
                  opaque_formatter h 7 root 100%nat 2%Z 0%Z)
           6%nat (encode_plan plan) E).
Defined.

(** On the stored plan of the scenario the programs over the store return,
    and return what the functional models of the renderers compute. *)
Example store_models_agree :
  let plan := @generate_tracking_plan ascii_tables (str "share") empty_str
                [str "click invite"] (str "web") None in
  let h := fst (store_value (encode_plan plan) []) in
  let root := snd (store_value (encode_plan plan) []) in
  snd (@tracking_plan_to_dbt_yaml_obj N flow_dumper 100 root (h, 7))
  = Ok (@tracking_plan_to_dbt_yaml flow_dumper plan)
  ∧ (∃ records_addr records g' st',
        @generate_sample_events N lcg_source minute_clock plan 2 0%Z 7
        = inr (records, g')
        ∧ @generate_sample_events_obj N lcg_source minute_clock 100 root 2 0%Z (h, 7)
          = (st', Ok records_addr)
        ∧ snd st' = g'
        ∧ reify 3 (fst st') records_addr
          = Some (YList (map (λ r, YDict (map (λ kv, (fst kv,
                                                       match snd kv with
                                                       | VStr s => YStr s
                                                       | VNone => YNone
                                                       end)) r)) records)))
  ∧ (∃ report, snd (@tracking_plan_to_markdown N opaque_formatter 100 root (h, 7))
               = Ok report
               ∧ is_prefix (str "# Tracking Plan: share") report = true).
Proof.
  intros plan h root. split; [by vm_compute|]. split.
  - do 4 eexists. split; [by vm_compute|]. split; [by vm_compute|].
    split; by vm_compute.
  - eexists. split; by vm_compute.
Qed.

(** * Further properties of the code *)

Example splitlines_examples :
  splitlines (str "a" ++ [13; 10] ++ str "b" ++ [10]) = [str "a"; str "b"]
  ∧ splitlines [10] = [[]]
  ∧ splitlines [] = []
  ∧ splitlines (str "a" ++ [10; 13]) = [str "a"; []]
  ∧ split comma (str "view,start,,complete,") = [str "view"; str "start"; []; str "complete"; []]
  ∧ split comma [] = [[]]
  ∧ parse_funnel_stages (str " view, start ,,complete") = [str "view"; str "start"; str "complete"]
  ∧ parse_key_actions (str "open share dialog" ++ [10] ++ str "  " ++ [10] ++ str " copy link ")
    = [str "open share dialog"; str "copy link"].
Proof. repeat split; by vm_compute. Qed.

(** ** The taxonomy validator *)

(** The names [snake_case_match] accepts, read as a proposition: the
    non-empty strings over [[a-z0-9_]] and those strings followed by one
    newline. *)
Lemma snake_case_match_language (name : pystr) :
  snake_case_match name = true
  ↔ (name ≠ [] ∧ Forall (λ c, in_az09u c = true) name)
    ∨ (∃ s, s ≠ [] ∧ Forall (λ c, in_az09u c = true) s ∧ name = s ++ [newline]).
Proof.
  unfold snake_case_match.
  destruct (reverse name) as [|c front] eqn:E.
  - apply (f_equal reverse) in E. rewrite reverse_involutive in E. subst name.
    split; [done|]. intros [[? _]|(s & _ & _ & Hs)]; [done|].
    by destruct s.
  - assert (En : name = reverse front ++ [c]).
    { rewrite <- (reverse_involutive name), E. by rewrite reverse_cons. }
    assert (Hall : ∀ l, all_az09u l = true ↔ Forall (λ c, in_az09u c = true) (reverse l)).
    { intros l. unfold all_az09u. by rewrite forallb_Forall, Forall_reverse. }
    rewrite orb_true_iff, !andb_true_iff, negb_true_iff, N.eqb_eq, !Hall,
      bool_decide_eq_false, reverse_cons, <- En.
    split.
    + intros [Hc|[[-> Hne] Hf]].
      * left. split; [|done]. rewrite En. by destruct (reverse front).
      * right. exists (reverse front). split; [|done].
        intros Hr. apply Hne. apply (f_equal reverse) in Hr.
        by rewrite reverse_involutive in Hr.
    + intros [[_ Hc]|(s & Hne & Hs & Hn)]; [by left|]. right.
      rewrite En in Hn. apply app_inj_tail in Hn as [Hs' ->].
      split; [split; [done|] | by rewrite Hs'].
      intros ->. apply Hne. by rewrite <- Hs'.
Qed.

Lemma event_issues_nil earlier ev :
  event_issues earlier ev = [] ↔ (event_name ev ∉ earlier) ∧ well_named ev.
Proof.
  unfold event_issues, well_named, required_props. cbv zeta. cbn [map concat].
  rewrite !Forall_cons, Forall_nil, !app_nil.
  destruct (snake_case_match (event_name ev)); repeat case_bool_decide;
    split; intros; intuition (try discriminate; try done).
Qed.

Lemma issues_from_nil earlier evs :
  issues_from earlier evs = []
  ↔ Forall (λ ev, event_name ev ∉ earlier) evs
    ∧ NoDup (map event_name evs) ∧ Forall well_named evs.
Proof.
  revert earlier. induction evs as [|ev evs IH]; intros earlier; cbn [issues_from map].
  - split; [intros _; repeat split; constructor | done].
  - rewrite app_nil, event_issues_nil, IH, !Forall_cons, NoDup_cons.
    assert (Hs : Forall (λ e, event_name e ∉ earlier ++ [event_name ev]) evs
                 ↔ Forall (λ e, event_name e ∉ earlier) evs
                   ∧ event_name ev ∉ map event_name evs).
    { rewrite !Forall_forall. split.
      - intros Ha. split; [intros e He Hin; apply (Ha e He), elem_of_app; by left|].
        intros Hin. apply list_elem_of_fmap in Hin as (e & Ee & He).
        apply (Ha e He), elem_of_app. right. rewrite Ee. by apply list_elem_of_singleton.
      - intros [Ha Hn] e He Hin. apply elem_of_app in Hin as [Hin|Hin].
        + by apply (Ha e He).
        + apply list_elem_of_singleton in Hin. apply Hn, list_elem_of_fmap. eauto. }
    rewrite Hs. tauto.
Qed.

(** X2. The validator reports nothing exactly when the event names are
    pairwise distinct, every name is accepted by the pattern, and every
    event has properties called [user_id], [workspace_id] and [timestamp]. *)
Theorem validate_taxonomy_no_issue_iff (evs : list EventDefinition) :
  validate_taxonomy evs = []
  ↔ NoDup (map event_name evs)
    ∧ Forall (λ ev, snake_case_match (event_name ev) = true
                    ∧ Forall (λ prop, prop ∈ map p_name (properties ev))
                        [str "user_id"; str "workspace_id"; str "timestamp"]) evs.
Proof.
  rewrite validate_taxonomy_spec, issues_from_nil. split.
  - intros (_ & Hn & Hw). done.
  - intros [Hn Hw]. split; [|done]. apply Forall_forall. intros ev _. apply not_elem_of_nil.
Qed.

(** Erasing everything but the event name and the names of the properties. *)
Definition name_skeleton (ev : EventDefinition) : EventDefinition :=
  {| event_name := event_name ev; friendly_name := empty_str; description := empty_str;
     when_triggered := empty_str; platform := empty_str;
     properties := map (λ p, mkProperty (p_name p) empty_str empty_str false) (properties ev);
     category := empty_str |}.

Lemma event_issues_skeleton earlier ev :
  event_issues earlier (name_skeleton ev) = event_issues earlier ev.
Proof.
  unfold event_issues. cbv zeta. cbn [name_skeleton event_name properties].
  by rewrite map_map.
Qed.

(** X3. The validator reads only the event names and the names of the
    properties: types, descriptions and the [required] flags play no part. *)
Theorem validate_taxonomy_reads_names_only (evs : list EventDefinition) :
  validate_taxonomy (map name_skeleton evs) = validate_taxonomy evs.
Proof.
  rewrite !validate_taxonomy_spec. generalize (@nil pystr) as earlier.
  induction evs as [|ev evs IH]; intros earlier; cbn [map issues_from]; [done|].
  by rewrite event_issues_skeleton, IH.
Qed.

Lemma issues_from_app earlier evs1 evs2 :
  issues_from earlier (evs1 ++ evs2)
  = issues_from earlier evs1 ++ issues_from (earlier ++ map event_name evs1) evs2.
Proof.
  revert earlier. induction evs1 as [|ev evs1 IH]; intros earlier; cbn [app issues_from map].
  - by rewrite app_nil_r.
  - by rewrite IH, <- !app_assoc.
Qed.

Lemma event_issues_earlier_ext earlier earlier' ev :
  (event_name ev ∈ earlier ↔ event_name ev ∈ earlier') →
  event_issues earlier ev = event_issues earlier' ev.
Proof. intros Hiff. unfold event_issues. cbv zeta. by rewrite (bool_decide_ext _ _ Hiff). Qed.

Lemma issues_from_disjoint earlier evs :
  Forall (λ ev, event_name ev ∉ earlier) evs →
  issues_from earlier evs = issues_from [] evs.
Proof.
  assert (G : ∀ extra, Forall (λ ev, event_name ev ∉ earlier) evs →
                       issues_from (earlier ++ extra) evs = issues_from extra evs).
  { induction evs as [|ev evs IH]; intros extra Hd; cbn [issues_from]; [done|].
    apply Forall_cons in Hd as [Hev Hd].
    rewrite <- app_assoc, (IH _ Hd). f_equal.
    apply event_issues_earlier_ext. rewrite elem_of_app. tauto. }
  intros Hd. rewrite <- (app_nil_r earlier). by apply G.
Qed.

(** X4. Validating a longer list only adds issues at the end; when the added
    events share no name with the earlier ones, the result is the
    concatenation of the two validations. *)
Theorem validate_taxonomy_app (evs1 evs2 : list EventDefinition) :
  validate_taxonomy evs1 `prefix_of` validate_taxonomy (evs1 ++ evs2)
  ∧ (Forall (λ ev, event_name ev ∉ map event_name evs1) evs2 →
     validate_taxonomy (evs1 ++ evs2) = validate_taxonomy evs1 ++ validate_taxonomy evs2).
Proof.
  rewrite !validate_taxonomy_spec, issues_from_app. cbn [app]. split.
  - by apply prefix_app_r.
  - intros Hd. by rewrite (issues_from_disjoint _ _ Hd).
Qed.

Lemma validate_taxonomy_app_witness :
  let ev := λ name, mkEvent (str name) empty_str empty_str empty_str empty_str [] empty_str in
  validate_taxonomy ([ev "a"%string] ++ [ev "b"%string])
  = validate_taxonomy [ev "a"%string] ++ validate_taxonomy [ev "b"%string].
Proof.
  intros ev. apply (proj2 (validate_taxonomy_app [ev "a"%string] [ev "b"%string])).
  repeat constructor. vm_compute. intros Hin. apply list_elem_of_In in Hin.
  destruct Hin as [Hin|[]]. discriminate Hin.
Defined.

Lemma event_issues_length earlier ev : (length (event_issues earlier ev) ≤ 5)%nat.
Proof.
  unfold event_issues, required_props. cbv zeta. cbn [map concat].
  repeat case_bool_decide; destruct (snake_case_match (event_name ev));
    cbn [app length]; lia.
Qed.

(** X5. An event contributes at most five issues. *)
Theorem validate_taxonomy_length (evs : list EventDefinition) :
  (length (validate_taxonomy evs) ≤ 5 * length evs)%nat.
Proof.
  rewrite validate_taxonomy_spec. generalize (@nil pystr) as earlier.
  induction evs as [|ev evs IH]; intros earlier; cbn [issues_from length]; [lia|].
  rewrite length_app. pose proof (event_issues_length earlier ev).
  specialize (IH (earlier ++ [event_name ev])). lia.
Qed.

Lemma issues_from_elem x earlier evs :
  x ∈ issues_from earlier evs
  ↔ ∃ pre ev post, evs = pre ++ ev :: post
                   ∧ x ∈ event_issues (earlier ++ map event_name pre) ev.
Proof.
  revert earlier. induction evs as [|ev evs IH]; intros earlier; cbn [issues_from].
  - rewrite elem_of_nil. split; [done|]. intros (pre & e & post & E & _).
    by destruct pre.
  - rewrite elem_of_app, IH. split.
    + intros [Hx|(pre & e & post & -> & Hx)].
      * exists [], ev, evs. by rewrite app_nil_r.
      * exists (ev :: pre), e, post. split; [done|].
        cbn [map]. by rewrite <- app_assoc in Hx.
    + intros (pre & e & post & E & Hx). destruct pre as [|e0 pre].
      * injection E as <- <-. left. by rewrite app_nil_r in Hx.
      * injection E as <- ->. right. exists pre, e, post. split; [done|].
        cbn [map] in Hx. by rewrite <- app_assoc.
Qed.

Lemma duplicate_issue_in_event_issues name earlier ev :
  duplicate_issue name ∈ event_issues earlier ev
  ↔ event_name ev = name ∧ name ∈ earlier.
Proof.
  unfold event_issues, required_props. cbv zeta. cbn [map concat].
  rewrite !elem_of_app. split.
  - intros [Hd|[Hs|[Hm|[Hm|[Hm|Hm]]]]].
    + case_bool_decide as Hin; [|by apply elem_of_nil in Hd].
      apply list_elem_of_singleton in Hd. unfold duplicate_issue in Hd.
      apply app_inv_head in Hd. by subst name.
    + destruct (snake_case_match _); [by apply elem_of_nil in Hs|].
      apply list_elem_of_singleton in Hs. discriminate Hs.
    + case_bool_decide; [by apply elem_of_nil in Hm|].
      apply list_elem_of_singleton in Hm. discriminate Hm.
    + case_bool_decide; [by apply elem_of_nil in Hm|].
      apply list_elem_of_singleton in Hm. discriminate Hm.
    + case_bool_decide; [by apply elem_of_nil in Hm|].
      apply list_elem_of_singleton in Hm. discriminate Hm.
    + by apply elem_of_nil in Hm.
  - intros [<- Hin]. left. rewrite bool_decide_eq_true_2 by done.
    by apply list_elem_of_singleton.
Qed.

(** X6. The validator reports [Duplicate event name detected: name] exactly
    when an event called [name] comes after another event of that name. *)
Theorem validate_taxonomy_duplicate_iff (evs : list EventDefinition) (name : pystr) :
  str "Duplicate event name detected: " ++ name ∈ validate_taxonomy evs
  ↔ ∃ pre ev post, evs = pre ++ ev :: post
                   ∧ event_name ev = name ∧ name ∈ map event_name pre.
Proof.
  rewrite validate_taxonomy_spec, issues_from_elem.
  change (str "Duplicate event name detected: " ++ name) with (duplicate_issue name).
  split; intros (pre & ev & post & E & Hx); exists pre, ev, post; (split; [done|]).
  - by apply duplicate_issue_in_event_issues in Hx.
  - by apply duplicate_issue_in_event_issues.
Qed.

(** ** The plan builder *)

Section BuilderMore.
Context `{CaseTables}.

(** The dictionary the builder returns, with the loops resolved. *)
Lemma generate_tracking_plan_unfold fn fd ka pf fs :
  generate_tracking_plan fn fd ka pf fs
  = let evs := map (funnel_event fn pf) (stages_or_default fs)
                 ++ map (behavior_event fn pf) (filter (λ a, is_blank a = false) ka) in
    mkPlan fn fd pf evs (validate_taxonomy evs).
Proof.
  cbv zeta. rewrite <- (generate_tracking_plan_events fn fd ka pf fs). reflexivity.
Qed.

Lemma default_properties_cases label :
  _default_properties label = mandatory_properties
  ∨ _default_properties label
    = mandatory_properties
        ++ [ mkprop "error_code" "string" "Machine-readable error code" false;
             mkprop "error_message" "string" "Human-readable error message" false ]
  ∨ _default_properties label
    = mandatory_properties
        ++ [ mkprop "element_id" "string" "Frontend identifier for the clicked element" false;
             mkprop "page" "string" "Page or screen where the action occurred" false ]
  ∨ _default_properties label
    = mandatory_properties
        ++ [ mkprop "error_code" "string" "Machine-readable error code" false;
             mkprop "error_message" "string" "Human-readable error message" false;
             mkprop "element_id" "string" "Frontend identifier for the clicked element" false;
             mkprop "page" "string" "Page or screen where the action occurred" false ].
Proof.
  rewrite default_properties_blocks_aux.
  destruct (contains (str "error") (lower label));
    destruct (contains (str "click") (lower label) || contains (str "cta") (lower label));
    auto.
Qed.
End BuilderMore.

(** The names the sample generator has a value for. *)
Definition sampled_names : list pystr :=
  [str "user_id"; str "workspace_id"; str "timestamp"; str "error_code";
   str "error_message"; str "element_id"; str "page"].

(** X7. Whatever the label, the default properties have pairwise distinct
    names, none of them [event_name], all of them names the sample
    generator knows; the first three are the required ones and every
    further property is optional. *)
Theorem default_properties_invariants `{CaseTables} (label : pystr) :
  let props := _default_properties label in
  NoDup (map p_name props)
  ∧ (str "event_name" ∉ map p_name props)
  ∧ Forall (λ p, p_name p ∈ sampled_names) props
  ∧ map p_name (take 3 props) = [str "user_id"; str "workspace_id"; str "timestamp"]
  ∧ Forall (λ p, p_required p = true) (take 3 props)
  ∧ Forall (λ p, p_required p = false) (drop 3 props)
  ∧ (length props = 3 ∨ length props = 5 ∨ length props = 7)%nat.
Proof.
  intros props. unfold props.
  destruct (default_properties_cases label) as [E|[E|[E|E]]]; rewrite E;
    (split; [apply (bool_decide_unpack _); by vm_compute|]);
    (split; [apply (bool_decide_unpack _); by vm_compute|]);
    (split; [apply (bool_decide_unpack _); by vm_compute|]);
    (split; [reflexivity|]);
    (split; [by repeat constructor|]);
    (split; [by repeat constructor|]); cbn; auto.
Qed.

(** X8. Blank key actions leave no trace in the plan, and an unset, an empty
    and the spelled-out default list of funnel stages give the same plan. *)
Theorem generate_tracking_plan_ignores_blank `{CaseTables}
    (feature_name feature_description : pystr) (key_actions : list pystr)
    (platform : pystr) (funnel_stages : option (list pystr)) :
  generate_tracking_plan feature_name feature_description key_actions platform funnel_stages
  = generate_tracking_plan feature_name feature_description
      (filter (λ a, strip is_whitespace a ≠ []) key_actions) platform funnel_stages
  ∧ generate_tracking_plan feature_name feature_description key_actions platform None
    = generate_tracking_plan feature_name feature_description key_actions platform (Some [])
  ∧ generate_tracking_plan feature_name feature_description key_actions platform None
    = generate_tracking_plan feature_name feature_description key_actions platform
        (Some [str "view"; str "start"; str "complete"]).
Proof.
  rewrite !generate_tracking_plan_unfold. cbv zeta. split; [|done].
  assert (E : filter (λ a, is_blank a = false)
                (filter (λ a, strip is_whitespace a ≠ []) key_actions)
              = filter (λ a, is_blank a = false) key_actions).
  { rewrite list_filter_filter. apply list_filter_iff. intros a.
    unfold is_blank. rewrite bool_decide_eq_false. tauto. }
  by rewrite E.
Qed.

(** ** The identifier normaliser *)

(** Two strings without doubled or trailing underscores, each followed by
    [__] and a string that does not start with an underscore: if the
    results are equal, so are the parts. *)
Lemma separator_unique (a a' b b' : pystr) :
  no_double a = true → last a ≠ Some underscore →
  no_double a' = true → last a' ≠ Some underscore →
  head b ≠ Some underscore → head b' ≠ Some underscore →
  a ++ str "__" ++ b = a' ++ str "__" ++ b' → a = a' ∧ b = b'.
Proof.
  change (str "__") with [underscore; underscore].
  assert (Hbase : ∀ x y z : pystr,
    no_double x = true → last x ≠ Some underscore → head y ≠ Some underscore →
    [underscore; underscore] ++ y = x ++ [underscore; underscore] ++ z → x = []).
  { intros x y z Hn Hl Hy E. destruct x as [|c [|d x]]; [done| |]; simpl in E.
    - injection E as <- _. by destruct Hl.
    - injection E as <- <- _. by apply no_double_cons in Hn as [[?|?] _]. }
  revert a'. induction a as [|c a IH]; intros a' Hn Hl Hn' Hl' Hb Hb' E.
  - assert (a' = []) as -> by exact (Hbase a' b b' Hn' Hl' Hb E).
    split; [done|]. simpl in E. congruence.
  - destruct a' as [|c' a'].
    + symmetry in E. by pose proof (Hbase (c :: a) b' b Hn Hl Hb' E).
    + injection E as <- E.
      apply no_double_cons in Hn as [_ Hn]. apply no_double_cons in Hn' as [_ Hn'].
      destruct (IH a') as [-> ->]; try done.
      * destruct a; [done|]. by rewrite last_cons_cons in Hl.
      * destruct a'; [done|]. by rewrite last_cons_cons in Hl'.
Qed.

(** X9. The [__] separator is unambiguous: two event names are equal exactly
    when the feature slugs are equal and the label slugs are equal. *)
Theorem event_name_eq_iff `{CaseTables} (feature1 label1 feature2 label2 : pystr) :
  _event_name feature1 label1 = _event_name feature2 label2
  ↔ _slugify feature1 = _slugify feature2 ∧ _slugify label1 = _slugify label2.
Proof.
  unfold _event_name. cbv zeta. split; [|by intros [-> ->]].
  destruct (slugify_shape feature1) as (_ & _ & ? & ?).
  destruct (slugify_shape feature2) as (_ & _ & ? & ?).
  destruct (slugify_shape label1) as (_ & ? & _ & _).
  destruct (slugify_shape label2) as (_ & ? & _ & _).
  by apply separator_unique.
Qed.

Lemma filter_az09_sub_runs b s :
  filter (λ c, in_az09 c = true) (sub_runs (λ c, negb (in_az09 c)) (str "_") b s)
  = filter (λ c, in_az09 c = true) s.
Proof.
  change (str "_") with [underscore].
  revert b. induction s as [|c s IH]; intros b; cbn [sub_runs]; [done|].
  rewrite (filter_cons _ c s). destruct (in_az09 c) eqn:E; cbn [negb].
  - rewrite filter_cons, decide_True by done. rewrite decide_True by done. by rewrite IH.
  - rewrite (decide_False (P := false = true)) by done.
    destruct b; [apply IH|]. cbn [app]. rewrite filter_cons, decide_False by done. apply IH.
Qed.

Lemma filter_az09_sub_underscore b s :
  filter (λ c, in_az09 c = true) (sub_runs is_underscore (str "_") b s)
  = filter (λ c, in_az09 c = true) s.
Proof.
  change (str "_") with [underscore].
  revert b. induction s as [|c s IH]; intros b; cbn [sub_runs]; [done|].
  rewrite (filter_cons _ c s). unfold is_underscore at 1.
  destruct (c =? underscore) eqn:E.
  - apply N.eqb_eq in E. subst c. rewrite (decide_False (P := in_az09 underscore = true)) by done.
    destruct b; [apply IH|]. cbn [app]. rewrite filter_cons, decide_False by done. apply IH.
  - rewrite filter_cons, IH. done.
Qed.

Lemma filter_az09_strip_underscore s :
  filter (λ c, in_az09 c = true) (strip is_underscore s)
  = filter (λ c, in_az09 c = true) s.
Proof.
  destruct (strip_split is_underscore s) as (a & b & E & Ha & Hb).
  assert (Hnone : ∀ l, Forall (λ c, is_underscore c = true) l →
                       filter (λ c, in_az09 c = true) l = []).
  { induction 1 as [|c l Hc _ IH]; [done|].
    rewrite filter_cons, decide_False; [done|].
    apply N.eqb_eq in Hc. by subst c. }
  rewrite E at 2. by rewrite !filter_app, (Hnone a), (Hnone b), app_nil_r.
Qed.

(** X10. The normaliser neither drops, adds nor reorders a character of
    [[a-z0-9]]: the letters and digits of the slug are those of the
    stripped, lower-cased text, in the same order.  So the slug is empty
    exactly when that text has no such character. *)
Theorem slugify_keeps_az09 `{CaseTables} (text : pystr) :
  filter (λ c, in_az09 c = true) (_slugify text)
  = filter (λ c, in_az09 c = true) (lower (strip is_whitespace text))
  ∧ (_slugify text = []
     ↔ Forall (λ c, in_az09 c = false) (lower (strip is_whitespace text))).
Proof.
  assert (E : filter (λ c, in_az09 c = true) (_slugify text)
              = filter (λ c, in_az09 c = true) (lower (strip is_whitespace text))).
  { unfold _slugify, re_sub_plus. cbv zeta.
    by rewrite filter_az09_strip_underscore, filter_az09_sub_underscore,
      filter_az09_sub_runs. }
  split; [exact E|]. split; [|apply slugify_no_az09].
  intros Hs. rewrite Hs in E. apply Forall_forall. intros c Hc.
  destruct (in_az09 c) eqn:Ec; [|done].
  assert (Hin : c ∈ filter (λ c, in_az09 c = true) (lower (strip is_whitespace text)))
    by (by apply list_elem_of_filter).
  rewrite <- E in Hin. by apply elem_of_nil in Hin.
Qed.

Lemma lstrip_idemp p s : lstrip p (lstrip p s) = lstrip p s.
Proof. apply lstrip_id. apply lstrip_head. Qed.

Lemma strip_idemp p s : strip p (strip p s) = strip p s.
Proof. apply strip_id; [apply strip_head | apply strip_last]. Qed.

(** X11. White space around the text makes no difference to the slug. *)
Theorem slugify_strip `{CaseTables} (text : pystr) :
  _slugify (strip is_whitespace text) = _slugify text.
Proof. unfold _slugify. cbv zeta. by rewrite strip_idemp. Qed.

(** X12. A built plan has no taxonomy issue exactly when the slugs of its
    funnel stages and non-blank key actions are pairwise distinct. *)
Theorem built_plan_no_issue_iff `{CaseTables}
    (feature_name feature_description : pystr) (key_actions : list pystr)
    (platform : pystr) (funnel_stages : option (list pystr)) :
  let stages :=
    match funnel_stages with
    | Some (s :: rest) => s :: rest
    | Some [] | None => [str "view"; str "start"; str "complete"]
    end in
  let actions := filter (λ a, strip is_whitespace a ≠ []) key_actions in
  taxonomy_issues (generate_tracking_plan feature_name feature_description
                     key_actions platform funnel_stages) = []
  ↔ NoDup (map _slugify (stages ++ actions)).
Proof.
  intros stages actions.
  set (plan := generate_tracking_plan _ _ _ _ _).
  assert (Ei : taxonomy_issues plan = validate_taxonomy (events plan)).
  { unfold plan. by rewrite generate_tracking_plan_unfold. }
  assert (Hb : Forall built_event (events plan)) by apply built_plan_events_built.
  assert (En : map event_name (events plan)
               = map (λ s, _slugify feature_name ++ str "__" ++ s)
                   (map _slugify (stages ++ actions))).
  { unfold plan. rewrite generate_tracking_plan_events, !map_app, !map_map.
    replace (filter (λ a, is_blank a = false) key_actions) with actions.
    2:{ apply list_filter_iff. intros a. unfold is_blank.
        by rewrite bool_decide_eq_false. }
    replace (stages_or_default funnel_stages) with stages
      by (by destruct funnel_stages as [[|]|]).
    reflexivity. }
  rewrite Ei, validate_taxonomy_spec, issues_from_nil, En.
  assert (Hinj : Inj (=) (=) (λ s : pystr, _slugify feature_name ++ str "__" ++ s)).
  { intros x y E. by apply app_inv_head, app_inv_head in E. }
  change (map ?f ?l) with (f <$> l) at 1.
  rewrite (NoDup_fmap _). split.
  - by intros (_ & Hn & _).
  - intros Hn. split; [|split; [done|]].
    + apply Forall_forall. intros ev _. apply not_elem_of_nil.
    + eapply Forall_impl; [exact Hb|]. apply built_event_well_named.
Qed.

(** ** The sample generator *)

Section SampleMore.
Context {G : Type} `{RandomSource G} `{Clock}.

(** The accumulator of the loop only grows: running the loop on [acc] is
    running it on the empty list and putting [acc] in front. *)
Lemma sample_loop_acc plan now count acc (g : G) :
  sample_loop plan now count acc g
  = match sample_loop plan now count [] g with
    | inl e => inl e
    | inr (recs, g') => inr (acc ++ recs, g')
    end.
Proof.
  revert acc g. induction count as [|count IH]; intros acc g; cbn [sample_loop].
  - unfold ret. by rewrite app_nil_r.
  - unfold bind, sample_one, bind, ret.
    destruct (choice (events plan) g) as [e|[ev g1]]; [done|].
    destruct (randint 0 (60 * 24) g1) as [e|[k g2]]; [done|].
    destruct (fill_properties _ _ (properties ev) g2) as [e|[payload g3]]; [done|].
    rewrite (IH (acc ++ [payload])), (IH ([] ++ [payload])).
    destruct (sample_loop plan now count [] g3) as [e|[recs g4]]; [done|].
    by rewrite <- app_assoc.
Qed.
End SampleMore.

(** X13. For [n <= 0] the generator returns no record and draws nothing, even
    for a plan without events. *)
Theorem generate_sample_events_nonpositive {G : Type} `{RandomSource G} `{Clock}
    (plan : TrackingPlan) (n : Z) (now : datetime) (g : G) :
  (n ≤ 0)%Z → generate_sample_events plan n now g = inr ([], g).
Proof.
  intros Hn. unfold generate_sample_events.
  replace (Z.to_nat n) with 0%nat by lia. reflexivity.
Qed.

Lemma generate_sample_events_nonpositive_witness :
  @generate_sample_events N lcg_source minute_clock
    (mkPlan (str "f") empty_str (str "web") [] []) (-3) 0%Z 5
  = inr ([], 5).
Proof.
  apply (@generate_sample_events_nonpositive N lcg_source minute_clock). lia.
Defined.

(** X14. On a plan without events the generator raises [IndexError] as soon as
    one record is asked for. *)
Theorem generate_sample_events_empty_plan {G : Type} `{RandomSource G} `{Clock}
    (plan : TrackingPlan) (n : Z) (now : datetime) (g : G) :
  events plan = [] → (1 ≤ n)%Z →
  generate_sample_events plan n now g = inl IndexError.
Proof.
  intros He Hn. unfold generate_sample_events.
  destruct (Z.to_nat n) as [|count] eqn:E; [lia|].
  cbn [sample_loop]. unfold bind, sample_one, bind. by rewrite He.
Qed.

Lemma generate_sample_events_empty_plan_witness :
  @generate_sample_events N lcg_source minute_clock
    (mkPlan (str "f") empty_str (str "web") [] []) 4 0%Z 5
  = inl IndexError.
Proof.
  apply (@generate_sample_events_empty_plan N lcg_source minute_clock);
    [reflexivity | lia].
Defined.

(** X15. Under a clock that stands still, asking for [n + m] records is
    asking for [n] and then, from the state the generator is left in, for
    [m] more.  Each call reads [datetime.utcnow()] once, when it starts:
    [now] is the value the long call reads, [now_first] and [now_more] are
    the values the two short calls read, and the equation needs the three
    to be the same. *)
Theorem generate_sample_events_add {G : Type} `{RandomSource G} `{Clock}
    (plan : TrackingPlan) (n m : Z) (now now_first now_more : datetime) (g : G) :
  (0 ≤ n)%Z → (0 ≤ m)%Z →
  now_first = now → now_more = now →
  generate_sample_events plan (n + m) now g
  = match generate_sample_events plan n now_first g with
    | inl e => inl e
    | inr (first, g1) =>
        match generate_sample_events plan m now_more g1 with
        | inl e => inl e
        | inr (more, g2) => inr (first ++ more, g2)
        end
    end.
Proof.
  intros Hn Hm -> ->. unfold generate_sample_events.
  rewrite Z2Nat.inj_add by done.
  generalize (Z.to_nat m) as b. generalize (Z.to_nat n) as a. clear.
  intros a b. revert g. induction a as [|a IH]; intros g.
  - cbn [Nat.add sample_loop]. unfold ret.
    by destruct (sample_loop plan now b [] g) as [e|[recs g']].
  - cbn [Nat.add sample_loop]. unfold bind.
    destruct (sample_one plan now [] g) as [e|[acc g1]]; [done|].
    rewrite (sample_loop_acc plan now (a + b) acc), (sample_loop_acc plan now a acc), IH.
    destruct (sample_loop plan now a [] g1) as [e|[first g2]]; [done|].
    destruct (sample_loop plan now b [] g2) as [e|[more g3]]; [done|].
    by rewrite app_assoc.
Qed.

Lemma generate_sample_events_add_witness :
  let plan := @generate_tracking_plan ascii_tables (str "share") empty_str
                [str "click invite"] (str "web") None in
  @generate_sample_events N lcg_source minute_clock plan (2 + 3) 0%Z 7
  = match @generate_sample_events N lcg_source minute_clock plan 2 0%Z 7 with
    | inl e => inl e
    | inr (first, g1) =>
        match @generate_sample_events N lcg_source minute_clock plan 3 0%Z g1 with
        | inl e => inl e
        | inr (more, g2) => inr (first ++ more, g2)
        end
    end.
Proof.
  intros plan.
  apply (@generate_sample_events_add N lcg_source minute_clock plan 2 3 0%Z 0%Z 0%Z 7);
    [lia | lia | reflexivity | reflexivity].
Defined.

(** The clock condition is needed: when the second short call reads a later
    clock value, its records carry other time stamps than those of the long
    call. *)
Example generate_sample_events_moving_clock :
  let plan := @generate_tracking_plan ascii_tables (str "share") empty_str
                [str "click invite"] (str "web") None in
  @generate_sample_events N lcg_source minute_clock plan (1 + 1) 5000%Z 7
  ≠ match @generate_sample_events N lcg_source minute_clock plan 1 5000%Z 7 with
    | inl e => inl e
    | inr (first, g1) =>
        match @generate_sample_events N lcg_source minute_clock plan 1 5001%Z g1 with
        | inl e => inl e
        | inr (more, g2) => inr (first ++ more, g2)
        end
    end.
Proof. intros plan E. vm_compute in E. discriminate E. Qed.

(** What the generator writes for a property called [name], [ts] being the
    time drawn for the record. *)
Definition field_ok `{Clock} (ts : datetime) (name : pystr) (v : pyvalue) : Prop :=
  if bool_decide (name = str "user_id") then
    ∃ k, 1 ≤ k ≤ 50 ∧ v = VStr (str "user_" ++ int_str k)
  else if bool_decide (name = str "workspace_id") then
    ∃ k, 1 ≤ k ≤ 10 ∧ v = VStr (str "ws_" ++ int_str k)
  else if bool_decide (name = str "timestamp") then
    v = VStr (isoformat ts ++ str "Z")
  else if bool_decide (name = str "error_code") then
    v ∈ [VStr empty_str; VStr (str "E_TIMEOUT"); VStr (str "E_500")]
  else if bool_decide (name = str "error_message") then
    v ∈ [VStr empty_str; VStr (str "Timeout"); VStr (str "Internal server error")]
  else if bool_decide (name = str "element_id") then
    v ∈ [VStr (str "cta_primary"); VStr (str "secondary_button"); VStr (str "link_text")]
  else if bool_decide (name = str "page") then
    v ∈ [VStr (str "settings"); VStr (str "dashboard"); VStr (str "feature_page")]
  else v = VNone.

(** A record drawn from [ev]: the event name, then one field per property
    in property order, the time stamp lying at most a day before [now]. *)
Definition record_from `{Clock} (now : datetime) (ev : EventDefinition)
    (r : list (pystr * pyvalue)) : Prop :=
  ∃ k vals,
    k ≤ 1440
    ∧ r = (str "event_name", VStr (event_name ev))
            :: zip (map p_name (properties ev)) vals
    ∧ Forall2 (field_ok (minus_minutes now k)) (map p_name (properties ev)) vals.

Lemma dict_set_fresh {V} (k : pystr) (v : V) d :
  k ∉ map fst d → dict_set k v d = d ++ [(k, v)].
Proof.
  induction d as [|[k0 v0] d IH]; intros Hk; cbn [dict_set app]; [done|].
  cbn [map fst] in Hk. apply not_elem_of_cons in Hk as [Hne Hk].
  rewrite bool_decide_eq_false_2 by done. by rewrite IH.
Qed.

Section SampleShape.
Context {G : Type} `{RandomSource G} `{Clock}.

Lemma returns_randint_bounds a b :
  a ≤ b → returns (G := G) (randint a b) (λ k, a ≤ k ≤ b).
Proof.
  intros Hab g. unfold randint.
  pose proof (randbelow_lt (b - a + 1) g) as Hlt.
  destruct (randbelow (b - a + 1) g) as [k g']. exists (a + k), g'.
  split; [done|]. simpl in Hlt. lia.
Qed.

Lemma returns_choice_map {A B} (f : A → B) (seq : list A) :
  seq ≠ [] → returns (G := G) (choice seq) (λ x, f x ∈ map f seq).
Proof.
  intros Hne g. destruct (returns_choice seq Hne g) as (x & g' & E & Hx).
  exists x, g'. split; [done|]. apply list_elem_of_fmap. eauto.
Qed.

Lemma returns_fill_property_shape ts payload p :
  returns (G := G) (fill_property ts payload p)
    (λ payload', ∃ v, payload' = dict_set (p_name p) v payload
                      ∧ field_ok ts (p_name p) v).
Proof.
  unfold fill_property, field_ok.
  repeat case_bool_decide;
    first
      [ eapply returns_bind;
        [ first [ apply (returns_randint_bounds 1 50); lia
                | apply (returns_randint_bounds 1 10); lia
                | by apply (returns_choice_map VStr) ] | ];
        intros x Hx
      | idtac ];
    apply returns_ret; eexists;
    (split;
     [ first [ reflexivity
             | match goal with Hn : p_name p = _ |- _ => rewrite Hn; reflexivity end ]
     | first [ exact Hx | by exists x | done ] ]).
Qed.

Lemma returns_fill_properties_shape ts payload ps :
  NoDup (map p_name ps) →
  Forall (λ p, p_name p ∉ map fst payload) ps →
  returns (G := G) (fill_properties ts payload ps)
    (λ payload', ∃ vals, payload' = payload ++ zip (map p_name ps) vals
                         ∧ Forall2 (field_ok ts) (map p_name ps) vals).
Proof.
  revert payload. induction ps as [|p ps IH]; intros payload Hnd Hfresh;
    cbn [fill_properties map].
  - apply returns_ret. exists []. by rewrite app_nil_r.
  - apply NoDup_cons in Hnd as [Hp Hnd]. apply Forall_cons in Hfresh as [Hfp Hfresh].
    eapply returns_bind; [apply returns_fill_property_shape|].
    intros payload1 (v & -> & Hv). rewrite dict_set_fresh by done.
    intros g. destruct (IH (payload ++ [(p_name p, v)]) Hnd) with (g := g)
      as (payload2 & g' & E & vals & -> & Hvals).
    { apply Forall_forall. intros q Hq. rewrite map_app, elem_of_app.
      intros [Hin|Hin].
      - rewrite Forall_forall in Hfresh. by apply (Hfresh q Hq).
      - cbn in Hin. apply list_elem_of_singleton in Hin.
        apply Hp. rewrite <- Hin. apply list_elem_of_fmap. eauto. }
    exists ((payload ++ [(p_name p, v)]) ++ zip (map p_name ps) vals), g'.
    split; [done|]. exists (v :: vals). split; [by rewrite <- app_assoc|].
    by constructor.
Qed.

Lemma returns_sample_one_shape plan now acc :
  events plan ≠ [] →
  Forall (λ ev, NoDup (map p_name (properties ev))
                ∧ str "event_name" ∉ map p_name (properties ev)) (events plan) →
  returns (G := G) (sample_one plan now acc)
    (λ acc', ∃ r ev, acc' = acc ++ [r] ∧ ev ∈ events plan ∧ record_from now ev r).
Proof.
  intros Hne Hwf. unfold sample_one.
  eapply returns_bind; [by apply returns_choice|]. intros ev Hev.
  eapply returns_bind; [apply (returns_randint_bounds 0 (60 * 24)); lia|].
  intros k Hk. cbv zeta.
  rewrite Forall_forall in Hwf. destruct (Hwf ev Hev) as [Hnd Hno].
  eapply returns_bind.
  { apply returns_fill_properties_shape; [done|].
    apply Forall_forall. intros p Hp. cbn. rewrite list_elem_of_singleton.
    intros Hn. apply Hno. rewrite <- Hn. apply list_elem_of_fmap. eauto. }
  intros payload (vals & -> & Hvals). apply returns_ret.
  eexists _, ev. split; [done|]. split; [done|].
  unfold record_from. exists k, vals. split; [cbv beta in Hk; lia|]. by split.
Qed.

Lemma returns_sample_loop_shape plan now count acc :
  events plan ≠ [] ∨ count = 0%nat →
  Forall (λ ev, NoDup (map p_name (properties ev))
                ∧ str "event_name" ∉ map p_name (properties ev)) (events plan) →
  returns (G := G) (sample_loop plan now count acc)
    (λ acc', ∃ recs, acc' = acc ++ recs ∧ length recs = count
                     ∧ Forall (λ r, ∃ ev, ev ∈ events plan ∧ record_from now ev r) recs).
Proof.
  intros Hne Hwf. revert acc.
  induction count as [|count IH]; intros acc; cbn [sample_loop].
  - apply returns_ret. exists []. by rewrite app_nil_r.
  - destruct Hne as [Hne|?]; [|done].
    eapply returns_bind; [by apply returns_sample_one_shape|].
    intros acc1 (r & ev & -> & Hev & Hr) g.
    destruct (IH (or_introl Hne) (acc ++ [r]) g)
      as (a & g' & E & recs & -> & Hl & Hrecs).
    exists ((acc ++ [r]) ++ recs), g'. split; [done|]. exists (r :: recs).
    split; [by rewrite <- app_assoc|]. split; [simpl; lia|].
    constructor; [eauto | done].
Qed.
End SampleShape.

(** X16. When the property names of every event are pairwise distinct and none
    is [event_name], every record the generator returns is the event name
    of one of the events followed by one field per property of that event,
    in property order; [user_id] is [user_k] with [1 <= k <= 50],
    [workspace_id] is [ws_k] with [1 <= k <= 10], [timestamp] is a time at
    most 1440 minutes before [now], the error and click fields come from
    their fixed lists, and a property of any other name gets [None]. *)
Theorem generate_sample_events_record_shape {G : Type} `{RandomSource G} `{Clock}
    (plan : TrackingPlan) (n : Z) (now : datetime) (g : G) :
  events plan ≠ [] →
  Forall (λ ev, NoDup (map p_name (properties ev))
                ∧ str "event_name" ∉ map p_name (properties ev)) (events plan) →
  ∃ recs g',
    generate_sample_events plan n now g = inr (recs, g')
    ∧ length recs = Z.to_nat n
    ∧ Forall (λ r, ∃ ev, ev ∈ events plan ∧ record_from now ev r) recs.
Proof.
  intros Hne Hwf. unfold generate_sample_events.
  destruct (returns_sample_loop_shape plan now (Z.to_nat n) [] (or_introl Hne) Hwf g)
    as (acc & g' & E & recs & -> & Hl & Hrecs).
  exists recs, g'. by rewrite E.
Qed.

Lemma generate_sample_events_record_shape_witness :
  let plan := @generate_tracking_plan ascii_tables (str "share") empty_str
                [str "click invite"] (str "web") None in
  ∃ recs g',
    @generate_sample_events N lcg_source minute_clock plan 3 0%Z 7 = inr (recs, g')
    ∧ length recs = 3%nat
    ∧ Forall (λ r, ∃ ev, ev ∈ events plan
                         ∧ @record_from minute_clock 0%Z ev r) recs.
Proof.
  intros plan.
  apply (@generate_sample_events_record_shape N lcg_source minute_clock plan 3 0%Z 7).
  - intros E. vm_compute in E. discriminate E.
  - apply (bool_decide_unpack _). by vm_compute.
Defined.

Lemma field_ok_sampled `{Clock} ts name v :
  name ∈ sampled_names → field_ok ts name v → ∃ s, v = VStr s.
Proof.
  unfold sampled_names, field_ok. rewrite !elem_of_cons, elem_of_nil.
  intros Hn. repeat case_bool_decide.
  - intros (k & _ & ->). eauto.
  - intros (k & _ & ->). eauto.
  - intros ->. eauto.
  - rewrite !elem_of_cons, elem_of_nil. intros [->|[->|[->|[]]]]; eauto.
  - rewrite !elem_of_cons, elem_of_nil. intros [->|[->|[->|[]]]]; eauto.
  - rewrite !elem_of_cons, elem_of_nil. intros [->|[->|[->|[]]]]; eauto.
  - rewrite !elem_of_cons, elem_of_nil. intros [->|[->|[->|[]]]]; eauto.
  - exfalso. tauto.
Qed.

Lemma default_properties_well_formed `{CaseTables} label :
  NoDup (map p_name (_default_properties label))
  ∧ (str "event_name" ∉ map p_name (_default_properties label))
  ∧ Forall (λ p, p_name p ∈ sampled_names) (_default_properties label).
Proof.
  destruct (default_properties_cases label) as [E|[E|[E|E]]]; rewrite E;
    (split; [apply (bool_decide_unpack _); by vm_compute|]);
    (split; apply (bool_decide_unpack _); by vm_compute).
Qed.

(** X17. On a plan returned by the builder the generator returns [n] records for
    every [n >= 0]; the keys of a record are [event_name] followed by the
    property names of one of the plan's events, and every value is a
    string: no field of such a record is [None]. *)
Theorem built_plan_samples_are_strings `{CaseTables} {G : Type} `{RandomSource G} `{Clock}
    (feature_name feature_description : pystr) (key_actions : list pystr)
    (platform : pystr) (funnel_stages : option (list pystr))
    (n : Z) (now : datetime) (g : G) :
  let plan := generate_tracking_plan feature_name feature_description
                key_actions platform funnel_stages in
  ∃ recs g',
    generate_sample_events plan n now g = inr (recs, g')
    ∧ length recs = Z.to_nat n
    ∧ Forall (λ r, (∃ ev, ev ∈ events plan
                          ∧ map fst r = str "event_name" :: map p_name (properties ev)
                          ∧ dict_get (str "event_name") r = Some (VStr (event_name ev)))
                   ∧ Forall (λ kv, ∃ s, snd kv = VStr s) r) recs.
Proof.
  intros plan.
  assert (Hprops : Forall (λ ev, ∃ label, properties ev = _default_properties label)
                     (events plan)).
  { unfold plan. rewrite generate_tracking_plan_events. apply Forall_app_2;
      apply Forall_map, Forall_true; intros label; by exists label. }
  assert (Hne : events plan ≠ []).
  { unfold plan. rewrite generate_tracking_plan_events.
    by destruct funnel_stages as [[|]|]. }
  assert (Hwf : Forall (λ ev, NoDup (map p_name (properties ev))
                              ∧ str "event_name" ∉ map p_name (properties ev))
                  (events plan)).
  { eapply Forall_impl; [exact Hprops|]. intros ev [label ->].
    destruct (default_properties_well_formed label) as (? & ? & _). done. }
  destruct (returns_sample_loop_shape plan now (Z.to_nat n) [] (or_introl Hne) Hwf g)
    as (acc & g' & E & recs & -> & Hl & Hrecs).
  exists recs, g'. split; [exact E|]. split; [exact Hl|].
  eapply Forall_impl; [exact Hrecs|].
  intros r (ev & Hev & k & vals & _ & -> & Hvals). split.
  - exists ev. split; [done|]. split; [|reflexivity].
    cbn [map fst]. f_equal. apply fst_zip. by rewrite (Forall2_length _ _ _ Hvals).
  - constructor; [by eexists|].
    rewrite Forall_forall in Hprops. destruct (Hprops ev Hev) as [label Ep].
    destruct (default_properties_well_formed label) as (_ & _ & Hs).
    rewrite <- Ep in Hs. clear Ep.
    assert (Hn : Forall (λ name, name ∈ sampled_names) (map p_name (properties ev)))
      by (by apply Forall_map).
    revert Hn. induction Hvals as [|name v names vals' Hv _ IH]; intros Hn; [constructor|].
    apply Forall_cons in Hn as [Hname Hn]. cbn [zip zip_with]. constructor; [|by apply IH].
    cbn. by eapply field_ok_sampled.
Qed.

(** ** The schema manifest *)

(** Reading a manifest back: the models with their name, description and
    columns; a column with its name, description and whether its test list
    is the single tag [not_null]. *)
Definition decode_column (y : yaml) : option (pystr * pystr * bool) :=
  match y with
  | YDict [(k1, YStr name); (k2, YStr descr); (k3, YList tests)] =>
      if bool_decide (k1 = str "name") && bool_decide (k2 = str "description")
         && bool_decide (k3 = str "tests")
      then match tests with
           | [] => Some (name, descr, false)
           | [YStr tag] =>
               if bool_decide (tag = str "not_null") then Some (name, descr, true) else None
           | _ => None
           end
      else None
  | _ => None
  end.

Definition decode_model (y : yaml) : option (pystr * pystr * list (pystr * pystr * bool)) :=
  match y with
  | YDict [(k1, YStr name); (k2, YStr descr); (k3, YList cols)] =>
      if bool_decide (k1 = str "name") && bool_decide (k2 = str "description")
         && bool_decide (k3 = str "columns")
      then cols' ← mapM decode_column cols; Some (name, descr, cols')
      else None
  | _ => None
  end.

Definition decode_manifest (y : yaml)
  : option (list (pystr * pystr * list (pystr * pystr * bool))) :=
  match y with
  | YDict [(k1, YInt 2); (k2, YList models)] =>
      if bool_decide (k1 = str "version") && bool_decide (k2 = str "models")
      then mapM decode_model models
      else None
  | _ => None
  end.

Lemma dbt_schema_models plan :
  dbt_schema plan
  = YDict [ (str "version", YInt 2);
            (str "models",
             YList (map (λ ev, YDict [ (str "name", YStr (event_name ev));
                                       (str "description", YStr (description ev));
                                       (str "columns",
                                        YList (map column_entry (properties ev))) ])
                      (events plan))) ].
Proof.
  unfold dbt_schema. cbv zeta.
  rewrite (fold_left_pointwise _
             (λ models ev, models ++ [YDict [ (str "name", YStr (event_name ev));
                                              (str "description", YStr (description ev));
                                              (str "columns",
                                               YList (map column_entry (properties ev))) ]])).
  - by rewrite fold_left_snoc_map.
  - intros models ev. by rewrite (fold_left_snoc_map column_entry).
Qed.

Lemma mapM_map_Some {A B C} (f : A → B) (d : B → option C) (g : A → C) l :
  (∀ x, d (f x) = Some (g x)) → mapM d (map f l) = Some (map g l).
Proof.
  intros Hd. apply mapM_Some. induction l as [|x l IH]; cbn [map]; constructor; auto.
Qed.

(** X18. The manifest keeps, for every event in plan order, its name, its
    description and, for every property in property order, the name, the
    description and the [required] flag: reading the manifest back gives
    exactly these. *)
Theorem manifest_round_trip (plan : TrackingPlan) :
  decode_manifest (dbt_schema plan)
  = Some (map (λ ev, (event_name ev, description ev,
                      map (λ p, (p_name p, p_description p, p_required p))
                        (properties ev)))
            (events plan)).
Proof.
  rewrite dbt_schema_models. cbn [decode_manifest].
  rewrite !bool_decide_eq_true_2 by done. cbn [andb].
  apply mapM_map_Some. intros ev. cbn [decode_model].
  rewrite !bool_decide_eq_true_2 by done. cbn [andb].
  rewrite (mapM_map_Some column_entry decode_column
             (λ p, (p_name p, p_description p, p_required p))); [done|].
  intros p. unfold column_entry. cbn [decode_column].
  rewrite !bool_decide_eq_true_2 by done. cbn [andb].
  destruct (p_required p); [|done]. by rewrite bool_decide_eq_true_2.
Qed.

(** ** The report *)

(** The lines of the report for one event. *)
Definition event_block (ev : EventDefinition) : list pystr :=
  [ str "### " ++ event_name ev;
    str "- **Friendly name:** " ++ friendly_name ev;
    str "- **Category:** " ++ category ev;
    str "- **Platform:** " ++ platform ev;
    str "- **When triggered:** " ++ when_triggered ev;
    str "- **Description:** " ++ description ev;
    str "- **Properties:**" ]
  ++ map markdown_property_line (properties ev)
  ++ [empty_str].

Lemma fold_left_snoc_concat {A B} (f : A → list B) l acc :
  fold_left (λ acc x, acc ++ f x) l acc = acc ++ concat (map f l).
Proof.
  revert acc. induction l as [|x l IH]; intros acc; simpl.
  - by rewrite app_nil_r.
  - by rewrite IH, <- app_assoc.
Qed.

Lemma markdown_lines_blocks plan :
  markdown_lines plan
  = [ str "# Tracking Plan: " ++ feature_name plan; empty_str;
      feature_description plan; empty_str; str "## Events"; empty_str ]
    ++ concat (map event_block (events plan))
    ++ match taxonomy_issues plan with
       | [] => []
       | issues => [str "## Taxonomy Warnings"; empty_str]
                   ++ map (λ issue, str "- " ++ issue) issues
       end.
Proof.
  unfold markdown_lines. cbv zeta.
  rewrite (fold_left_pointwise _ (λ lines ev, lines ++ event_block ev)).
  2:{ intros lines ev. rewrite fold_left_snoc_map. unfold event_block.
      by rewrite <- !app_assoc. }
  rewrite (fold_left_snoc_concat event_block).
  destruct (taxonomy_issues plan) as [|issue issues] eqn:E.
  - rewrite bool_decide_eq_true_2 by done. cbn [negb].
    rewrite app_nil_r. reflexivity.
  - rewrite bool_decide_eq_false_2 by done. cbn [negb].
    rewrite fold_left_snoc_map, <- !app_assoc. reflexivity.
Qed.

(** ** The form handler *)

Lemma stripped_nonblank_clean pieces :
  Forall (λ x, x ≠ [] ∧ strip is_whitespace x = x) (stripped_nonblank pieces).
Proof.
  unfold stripped_nonblank. apply Forall_map, Forall_forall. intros x Hx.
  apply list_elem_of_filter in Hx as [Hx _]. split; [done | apply strip_idemp].
Qed.

Lemma stripped_nonblank_id pieces :
  Forall (λ x, x ≠ [] ∧ strip is_whitespace x = x) pieces →
  stripped_nonblank pieces = pieces.
Proof.
  unfold stripped_nonblank. induction 1 as [|x l [Hne Hs] _ IH]; [done|].
  rewrite filter_cons, decide_True by (by rewrite Hs). cbn [map]. by rewrite Hs, IH.
Qed.

Lemma split_from_cur sep cur s :
  split_from sep cur s
  = match split_from sep [] s with
    | h :: t => (cur ++ h) :: t
    | [] => [cur]
    end.
Proof.
  revert cur. induction s as [|c s IH]; intros cur; cbn [split_from].
  - by rewrite app_nil_r.
  - destruct (c =? sep); [by rewrite app_nil_r|].
    rewrite (IH (cur ++ [c])), (IH ([] ++ [c])).
    destruct (split_from sep [] s); [done|]. by rewrite <- app_assoc.
Qed.

Lemma split_from_nonempty sep cur s : split_from sep cur s ≠ [].
Proof. revert cur. induction s as [|c s IH]; intros cur; cbn; [done|]. by destruct (c =? sep). Qed.

Lemma split_from_no_sep sep cur p rest :
  sep ∉ p → split_from sep cur (p ++ rest) = split_from sep (cur ++ p) rest.
Proof.
  revert cur. induction p as [|c p IH]; intros cur Hp; cbn [app split_from].
  - by rewrite app_nil_r.
  - apply not_elem_of_cons in Hp as [Hc Hp].
    destruct (c =? sep) eqn:E; [apply N.eqb_eq in E; congruence|].
    rewrite IH by done. by rewrite <- app_assoc.
Qed.

Lemma split_join_round_trip_aux (sep : N) :
  (∀ s, join [sep] (split sep s) = s)
  ∧ (∀ parts, parts ≠ [] → Forall (λ p, sep ∉ p) parts →
              split sep (join [sep] parts) = parts).
Proof.
  split.
  - unfold split. induction s as [|c s IH]; [done|]. cbn [split_from].
    destruct (c =? sep) eqn:E.
    + apply N.eqb_eq in E. subst c.
      pose proof (split_from_nonempty sep [] s) as Hne.
      destruct (split_from sep [] s) as [|h t]; [done|].
      change (join [sep] ([] :: h :: t)) with ([] ++ [sep] ++ join [sep] (h :: t)).
      by rewrite IH.
    + rewrite split_from_cur.
      pose proof (split_from_nonempty sep [] s) as Hne.
      destruct (split_from sep [] s) as [|h t]; [done|].
      destruct t as [|h' t].
      * cbn [join] in IH |- *. by rewrite IH.
      * change (join [sep] ((([] ++ [c]) ++ h) :: h' :: t))
          with (c :: (h ++ [sep] ++ join [sep] (h' :: t))).
        change (join [sep] (h :: h' :: t)) with (h ++ [sep] ++ join [sep] (h' :: t)) in IH.
        by rewrite IH.
  - unfold split. intros parts Hne Hp. induction Hp as [|p parts Hp _ IH]; [done|].
    destruct parts as [|q parts].
    + cbn [join]. rewrite <- (app_nil_r p) at 1.
      by rewrite split_from_no_sep.
    + change (join [sep] (p :: q :: parts)) with (p ++ sep :: join [sep] (q :: parts)).
      rewrite split_from_no_sep by done. cbn [app split_from].
      rewrite N.eqb_refl. by rewrite IH.
Qed.


(** X20. Joining the pieces of [split] with the separator gives the text back;
    splitting a joined, non-empty list of pieces that do not contain the
    separator gives the pieces back. *)
Theorem split_join_round_trip (sep : N) :
  (∀ s, join [sep] (split sep s) = s)
  ∧ (∀ parts, parts ≠ [] → Forall (λ p, sep ∉ p) parts →
              split sep (join [sep] parts) = parts).
Proof. apply split_join_round_trip_aux. Qed.

Lemma split_join_round_trip_witness :
  split comma (join [comma] [str "view"; str "start"; str "complete"])
  = [str "view"; str "start"; str "complete"].
Proof.
  apply (proj2 (split_join_round_trip comma)); [done|].
  apply (bool_decide_unpack _). by vm_compute.
Defined.

(** X21. The funnel-stage field round-trips: a list of stages that are
    non-empty, have no white space at either end and contain no comma is
    read back from its comma-separated form. *)
Theorem parse_funnel_stages_join (stages : list pystr) :
  Forall (λ s, s ≠ [] ∧ strip is_whitespace s = s ∧ comma ∉ s) stages →
  parse_funnel_stages (join [comma] stages) = stages.
Proof.
  intros Hs. unfold parse_funnel_stages.
  destruct stages as [|s stages]; [by vm_compute|].
  rewrite (proj2 (split_join_round_trip_aux comma)); [| done |].
  - apply stripped_nonblank_id. eapply Forall_impl; [exact Hs|]. by intros x (? & ? & ?).
  - eapply Forall_impl; [exact Hs|]. by intros x (? & ? & ?).
Qed.

Lemma parse_funnel_stages_join_witness :
  parse_funnel_stages (join [comma] [str "view"; str "start"; str "complete"])
  = [str "view"; str "start"; str "complete"].
Proof.
  apply parse_funnel_stages_join. apply (bool_decide_unpack _). by vm_compute.
Defined.

Lemma split_from_pieces (Q : N → Prop) sep cur s :
  Forall Q cur → Forall (λ c, c = sep ∨ Q c) s →
  Forall (Forall Q) (split_from sep cur s).
Proof.
  intros Hcur Hs. revert cur Hcur.
  induction Hs as [|c s Hc _ IH]; intros cur Hcur; cbn [split_from].
  - by constructor.
  - destruct (c =? sep) eqn:E.
    + constructor; [done|]. by apply IH.
    + apply N.eqb_neq in E. destruct Hc as [?|Hc]; [done|].
      apply IH. apply Forall_app_2; [done | by constructor].
Qed.

(** X22. The handler passes on only entries that are non-empty and have no
    white space at either end, so the builder skips none of them: the plan
    has one behaviour event per parsed key action, after one funnel event
    per parsed stage, or after the three default stages when the stage
    field has no non-blank entry. *)
Theorem submitted_plan_events `{CaseTables}
    (feature_name feature_description platform key_actions_text
       funnel_stages_text : pystr) :
  let actions := parse_key_actions key_actions_text in
  let stages :=
    match parse_funnel_stages funnel_stages_text with
    | [] => [str "view"; str "start"; str "complete"]
    | s :: rest => s :: rest
    end in
  let plan := submitted_plan feature_name feature_description platform
                key_actions_text funnel_stages_text in
  Forall (λ x, x ≠ [] ∧ strip is_whitespace x = x)
    (actions ++ parse_funnel_stages funnel_stages_text)
  ∧ map event_name (events plan) = map (_event_name feature_name) (stages ++ actions)
  ∧ length (events plan) = (length stages + length actions)%nat.
Proof.
  intros actions stages plan.
  assert (Hclean : Forall (λ x, x ≠ [] ∧ strip is_whitespace x = x) actions)
    by apply stripped_nonblank_clean.
  assert (Hkeep : filter (λ a, is_blank a = false) actions = actions).
  { clear -Hclean. induction Hclean as [|x l [Hne Hs] _ IH]; [done|].
    rewrite filter_cons, decide_True, IH; [done|].
    unfold is_blank. apply bool_decide_eq_false. by rewrite Hs. }
  assert (En : map event_name (events plan)
               = map (_event_name feature_name) (stages ++ actions)).
  { unfold plan, submitted_plan. cbv zeta.
    rewrite generate_tracking_plan_events, !map_app, !map_map.
    fold actions. rewrite Hkeep.
    replace (stages_or_default (Some (parse_funnel_stages funnel_stages_text)))
      with stages by (unfold stages; by destruct (parse_funnel_stages _)).
    reflexivity. }
  split; [|split; [exact En|]].
  - apply Forall_app_2; [done | apply stripped_nonblank_clean].
  - rewrite <- (length_map event_name), En, length_map. apply length_app.
Qed.

(** X23. A stage field made of white space and commas only has no entry, and
    the handler then builds the plan of the default stages. *)
Theorem submitted_plan_blank_stages `{CaseTables}
    (feature_name feature_description platform key_actions_text
       funnel_stages_text : pystr) :
  Forall (λ c, c = comma ∨ is_whitespace c = true) funnel_stages_text →
  parse_funnel_stages funnel_stages_text = []
  ∧ submitted_plan feature_name feature_description platform
      key_actions_text funnel_stages_text
    = generate_tracking_plan feature_name feature_description
        (parse_key_actions key_actions_text) platform None.
Proof.
  intros Hb.
  assert (E : parse_funnel_stages funnel_stages_text = []).
  { unfold parse_funnel_stages, stripped_nonblank, split.
    pose proof (split_from_pieces (λ c, is_whitespace c = true) comma []
                  funnel_stages_text (Forall_nil_2 _) Hb) as Hp.
    induction Hp as [|piece pieces Hpiece _ IH]; [done|].
    rewrite filter_cons, decide_False; [exact IH|].
    intros Hn. apply Hn. by apply strip_all. }
  split; [exact E|]. unfold submitted_plan. cbv zeta. rewrite E.
  by rewrite !generate_tracking_plan_unfold.
Qed.

Lemma submitted_plan_blank_stages_witness :
  parse_funnel_stages (str " , ,") = []
  ∧ @submitted_plan ascii_tables (str "share") empty_str (str "web")
      (str "click invite") (str " , ,")
    = @generate_tracking_plan ascii_tables (str "share") empty_str
        (parse_key_actions (str "click invite")) (str "web") None.
Proof.
  apply (@submitted_plan_blank_stages ascii_tables).
  apply (bool_decide_unpack _). by vm_compute.
Defined.

(** ** The lines of the report *)

(** The number of line feeds in a string. *)
Definition line_feeds (s : pystr) : nat := length (filter (λ c, c = newline) s).

(** The line feeds in the fields the report prints: the ones the writer of
    the plan put there. *)
Definition property_line_feeds (p : Property) : nat :=
  line_feeds (p_name p) + line_feeds (p_type p) + line_feeds (p_description p).

Definition event_line_feeds (ev : EventDefinition) : nat :=
  line_feeds (event_name ev) + line_feeds (friendly_name ev)
  + line_feeds (category ev) + line_feeds (platform ev)
  + line_feeds (when_triggered ev) + line_feeds (description ev)
  + sum_list (map property_line_feeds (properties ev)).

Definition plan_line_feeds (plan : TrackingPlan) : nat :=
  line_feeds (feature_name plan) + line_feeds (feature_description plan)
  + sum_list (map event_line_feeds (events plan))
  + sum_list (map line_feeds (taxonomy_issues plan)).

Lemma line_feeds_app s t : line_feeds (s ++ t) = (line_feeds s + line_feeds t)%nat.
Proof. unfold line_feeds. by rewrite filter_app, length_app. Qed.

Lemma line_feeds_zero s : line_feeds s = 0%nat ↔ newline ∉ s.
Proof.
  unfold line_feeds. induction s as [|c s IH].
  - split; [intros _; apply not_elem_of_nil | done].
  - rewrite filter_cons, not_elem_of_cons. destruct (decide (c = newline)) as [->|Hc].
    + cbn [length]. split; [lia | by intros [? _]].
    + rewrite IH. split; [by intros ? | by intros [_ ?]].
Qed.

Lemma split_from_length sep cur s :
  length (split_from sep cur s) = S (length (filter (λ c, c = sep) s)).
Proof.
  revert cur. induction s as [|c s IH]; intros cur; cbn [split_from]; [done|].
  rewrite filter_cons. destruct (c =? sep) eqn:E.
  - apply N.eqb_eq in E. rewrite decide_True by done. cbn [length]. by rewrite IH.
  - apply N.eqb_neq in E. rewrite decide_False by done. apply IH.
Qed.

Lemma line_feeds_join parts :
  line_feeds (join [newline] parts)
  = (pred (length parts) + sum_list (map line_feeds parts))%nat.
Proof.
  induction parts as [|p parts IH]; [done|].
  destruct parts as [|q parts].
  - cbn [join map sum_list sum_list_with length pred]. unfold id. lia.
  - change (join [newline] (p :: q :: parts))
      with (p ++ [newline] ++ join [newline] (q :: parts)).
    rewrite !line_feeds_app, IH. cbn [map sum_list sum_list_with length pred].
    change (line_feeds [newline]) with 1%nat. unfold id. lia.
Qed.

Lemma sum_list_app_nat (l k : list nat) :
  sum_list (l ++ k) = (sum_list l + sum_list k)%nat.
Proof.
  induction l as [|x l IH]; [done|].
  change (sum_list ((x :: l) ++ k)) with (x + sum_list (l ++ k))%nat.
  change (sum_list (x :: l)) with (x + sum_list l)%nat. rewrite IH. lia.
Qed.

Lemma sum_list_zero (l : list nat) : sum_list l = 0%nat → Forall (λ x, x = 0%nat) l.
Proof.
  induction l as [|x l IH]; [by constructor|].
  change (sum_list (x :: l)) with (x + sum_list l)%nat. intros Hs.
  constructor; [lia | apply IH; lia].
Qed.

Ltac literal_line_feeds :=
  repeat match goal with
         | |- context [line_feeds (str ?s)] => change (line_feeds (str s)) with 0%nat
         | |- context [line_feeds empty_str] => change (line_feeds empty_str) with 0%nat
         | |- context [line_feeds dash] => change (line_feeds dash) with 0%nat
         end.

Lemma markdown_property_line_feeds p :
  line_feeds (markdown_property_line p) = property_line_feeds p.
Proof.
  unfold markdown_property_line, property_line_feeds. cbv zeta.
  rewrite !line_feeds_app. destruct (p_required p); literal_line_feeds; lia.
Qed.

Lemma event_block_line_feeds ev :
  sum_list (map line_feeds (event_block ev)) = event_line_feeds ev.
Proof.
  unfold event_block, event_line_feeds.
  rewrite !map_app, !sum_list_app_nat, map_map.
  rewrite (map_ext _ property_line_feeds) by apply markdown_property_line_feeds.
  generalize (sum_list (map property_line_feeds (properties ev))). intros k.
  cbn [map sum_list sum_list_with].
  rewrite !line_feeds_app. literal_line_feeds. unfold id. lia.
Qed.

Lemma markdown_lines_line_feeds plan :
  sum_list (map line_feeds (markdown_lines plan)) = plan_line_feeds plan.
Proof.
  rewrite markdown_lines_blocks. unfold plan_line_feeds.
  rewrite !map_app, !sum_list_app_nat.
  assert (Eb : sum_list (map line_feeds (concat (map event_block (events plan))))
               = sum_list (map event_line_feeds (events plan))).
  { induction (events plan) as [|ev evs IH]; [done|].
    cbn [map concat]. rewrite map_app, sum_list_app_nat, IH, event_block_line_feeds.
    reflexivity. }
  rewrite Eb. generalize (sum_list (map event_line_feeds (events plan))). intros k.
  assert (Ei : sum_list (map line_feeds
                 match taxonomy_issues plan with
                 | [] => []
                 | issues => [str "## Taxonomy Warnings"; empty_str]
                             ++ map (λ issue, str "- " ++ issue) issues
                 end)
               = sum_list (map line_feeds (taxonomy_issues plan))).
  { destruct (taxonomy_issues plan) as [|issue issues]; [done|].
    generalize (issue :: issues). intros l.
    rewrite map_app, sum_list_app_nat, map_map.
    assert (Em : map (λ x, line_feeds (str "- " ++ x)) l = map line_feeds l).
    { apply map_ext. intros x. rewrite line_feeds_app. by literal_line_feeds. }
    rewrite Em. generalize (sum_list (map line_feeds l)). intros j.
    cbn [map sum_list sum_list_with]. literal_line_feeds. unfold id. lia. }
  rewrite Ei. generalize (sum_list (map line_feeds (taxonomy_issues plan))). intros j.
  cbn [map sum_list sum_list_with].
  rewrite !line_feeds_app. literal_line_feeds. unfold id. lia.
Qed.

Lemma markdown_lines_length plan :
  length (markdown_lines plan)
  = (6 + sum_list (map (λ ev, 8 + length (properties ev)) (events plan))
     + match taxonomy_issues plan with
       | [] => 0
       | issues => 2 + length issues
       end)%nat.
Proof.
  rewrite markdown_lines_blocks, !length_app. cbn [length].
  assert (E : length (concat (map event_block (events plan)))
              = sum_list (map (λ ev, 8 + length (properties ev))%nat (events plan))).
  { induction (events plan) as [|ev evs IH]; [done|].
    cbn [map concat sum_list sum_list_with]. rewrite length_app, IH.
    unfold event_block. rewrite !length_app, length_map. cbn [length]. unfold id. lia. }
  rewrite E. destruct (taxonomy_issues plan); cbn [length app]; [lia|].
  rewrite length_map. cbn [length]. lia.
Qed.

(** X19. The text of the report, cut at its line feeds.  The renderer writes
    six header entries, then for every event in plan order seven entries,
    one per property and an empty one, then, only when there are taxonomy
    issues, the heading [## Taxonomy Warnings], an empty entry and one entry
    per issue, and joins them with line feeds.  The number of lines of the
    text is the number of entries plus the number of line feeds inside the
    fields of the plan, which the renderer copies as they are; when no
    field holds a line feed, the lines of the text are exactly the entries. *)
Theorem markdown_text_lines (plan : TrackingPlan) :
  let text := tracking_plan_to_markdown_text plan in
  let entries :=
    [ str "# Tracking Plan: " ++ feature_name plan; empty_str;
      feature_description plan; empty_str; str "## Events"; empty_str ]
    ++ concat (map event_block (events plan))
    ++ match taxonomy_issues plan with
       | [] => []
       | issues => [str "## Taxonomy Warnings"; empty_str]
                   ++ map (λ issue, str "- " ++ issue) issues
       end in
  text = join [newline] entries
  ∧ length (split newline text)
    = (6 + sum_list (map (λ ev, 8 + length (properties ev)) (events plan))
       + match taxonomy_issues plan with
         | [] => 0
         | issues => 2 + length issues
         end
       + plan_line_feeds plan)%nat
  ∧ (plan_line_feeds plan = 0%nat → split newline text = entries).
Proof.
  intros text entries.
  assert (Ee : markdown_lines plan = entries) by apply markdown_lines_blocks.
  assert (Et : text = join [newline] entries).
  { unfold text, tracking_plan_to_markdown_text. by rewrite Ee. }
  assert (Hne : entries ≠ []) by done.
  split; [exact Et|]. split.
  - unfold split. rewrite split_from_length.
    change (length (filter (λ c, c = newline) text)) with (line_feeds text).
    rewrite Et, line_feeds_join, <- Ee, markdown_lines_line_feeds, markdown_lines_length.
    lia.
  - intros Hz. rewrite Et.
    apply (proj2 (split_join_round_trip_aux newline)); [done|].
    rewrite <- markdown_lines_line_feeds, Ee in Hz.
    apply sum_list_zero in Hz. rewrite Forall_map in Hz.
    eapply Forall_impl; [exact Hz|]. intros s Hs. by apply line_feeds_zero.
Qed.

Lemma markdown_text_lines_witness :
  let plan := @generate_tracking_plan ascii_tables (str "share") empty_str
                [str "click invite"] (str "web") None in
  plan_line_feeds plan = 0%nat
  ∧ split newline (tracking_plan_to_markdown_text plan) = markdown_lines plan.
Proof.
  intros plan.
  assert (Hz : plan_line_feeds plan = 0%nat) by (vm_compute; reflexivity).
  split; [exact Hz|].
  rewrite markdown_lines_blocks.
  exact (proj2 (proj2 (markdown_text_lines plan)) Hz).
Defined.

(** A line feed typed into the description field of the form adds a line:
    the report of this plan has one line more than entries. *)
Example markdown_text_lines_description :
  let plan := @generate_tracking_plan ascii_tables (str "share")
                (str "first" ++ [newline] ++ str "second")
                [str "click invite"] (str "web") None in
  length (split newline (tracking_plan_to_markdown_text plan))
  = S (length (markdown_lines plan)).
Proof. by vm_compute. Qed.

(** On the stored plan of the scenario the report program over the store
    returns the text the functional model of the report computes. *)
Example store_report_agrees :
  let plan := @generate_tracking_plan ascii_tables (str "share") empty_str
                [str "click invite"; str "Click Invite"] (str "web") None in
  let h := fst (store_value (encode_plan plan) []) in
  let root := snd (store_value (encode_plan plan) []) in
  taxonomy_issues plan ≠ []
  ∧ snd (@tracking_plan_to_markdown N opaque_formatter 100 root (h, 7))
    = Ok (tracking_plan_to_markdown_text plan).
Proof. intros plan h root. split; by vm_compute. Qed.

(** ** Letter case *)

Lemma lstrip_map (f : N → N) p s :
  (∀ c, p (f c) = p c) → lstrip p (map f s) = map f (lstrip p s).
Proof.
  intros Hp. induction s as [|c s IH]; [done|]. cbn [map lstrip].
  rewrite Hp. by destruct (p c).
Qed.

Lemma map_reverse (f : N → N) s : map f (reverse s) = reverse (map f s).
Proof.
  induction s as [|c s IH]; [done|]. cbn [map].
  by rewrite !reverse_cons, map_app, IH.
Qed.

Lemma strip_map (f : N → N) p s :
  (∀ c, p (f c) = p c) → strip p (map f s) = map f (strip p s).
Proof.
  intros Hp. unfold strip, rstrip.
  by rewrite (lstrip_map f p s Hp), <- map_reverse, (lstrip_map f p _ Hp), map_reverse.
Qed.

Lemma whitespace_ascii_lower c : is_whitespace (ascii_lower c) = is_whitespace c.
Proof.
  unfold ascii_lower. destruct ((65 <=? c) && (c <=? 90)) eqn:E; [|done].
  apply andb_true_iff in E as [E1 E2]. apply N.leb_le in E1, E2.
  unfold is_whitespace.
  repeat match goal with
         | |- context [?a <=? ?b] =>
             let H := fresh in
             destruct (N.leb_spec a b) as [H|H]; try lia
         | |- context [?a =? ?b] =>
             let H := fresh in
             destruct (N.eqb_spec a b) as [H|H]; try lia
         end; reflexivity.
Qed.

Lemma ascii_lower_idemp c : ascii_lower (ascii_lower c) = ascii_lower c.
Proof.
  unfold ascii_lower. destruct ((65 <=? c) && (c <=? 90)) eqn:E; [|by rewrite E].
  apply andb_true_iff in E as [E1 E2]. apply N.leb_le in E1, E2.
  destruct ((65 <=? c + 32) && (c + 32 <=? 90)) eqn:E'; [|done].
  apply andb_true_iff in E' as [_ E']. apply N.leb_le in E'. lia.
Qed.

Lemma ascii_lower_ascii c : c < 128 → ascii_lower c < 128.
Proof.
  unfold ascii_lower. destruct ((65 <=? c) && (c <=? 90)) eqn:E; [|done].
  apply andb_true_iff in E as [E1 E2]. apply N.leb_le in E1, E2. lia.
Qed.

Lemma lower_from_ascii `{CaseTables} before s :
  Forall (λ c, c < 128) s → lower_from before s = map ascii_lower s.
Proof.
  intros Hs. revert before. induction Hs as [|c s Hc _ IH]; intros before; [done|].
  cbn [lower_from map]. unfold lower_char. apply N.ltb_lt in Hc. rewrite Hc.
  by rewrite IH.
Qed.

(** X24. For ASCII text the slug does not depend on the case of the letters:
    lower-casing the text first gives the same slug, so two ASCII labels
    that differ only in letter case get the same identifier. *)
Theorem slugify_ascii_case `{CaseTables} (text other : pystr) :
  Forall (λ c, c < 128) text → Forall (λ c, c < 128) other →
  map ascii_lower text = map ascii_lower other →
  _slugify text = _slugify other.
Proof.
  assert (Hkey : ∀ x, Forall (λ c, c < 128) x →
                      lower (strip is_whitespace x)
                      = strip is_whitespace (map ascii_lower x)).
  { intros x Hx. unfold lower. rewrite lower_from_ascii.
    - symmetry. apply strip_map, whitespace_ascii_lower.
    - destruct (strip_split is_whitespace x) as (a & b & E & _ & _).
      rewrite E in Hx. apply Forall_app in Hx as [_ Hx].
      by apply Forall_app in Hx as [Hx _]. }
  intros Ht Ho E. unfold _slugify. cbv zeta.
  by rewrite (Hkey text Ht), (Hkey other Ho), E.
Qed.

Lemma slugify_ascii_case_witness :
  @_slugify ascii_tables (str "Sync Now") = @_slugify ascii_tables (str "sYNC nOW").
Proof.
  apply (@slugify_ascii_case ascii_tables).
  - apply (bool_decide_unpack _). by vm_compute.
  - apply (bool_decide_unpack _). by vm_compute.
  - by vm_compute.
Defined.

(** ** Missing keys *)

(** X25. The report needs the key [feature_name] and the manifest and the
    samples need the key [events]: when the plan dictionary lacks it the
    renderer raises [KeyError].  The sample generator reads the plan only
    inside its loop, so for [n <= 0] it returns an empty list whatever the
    plan is. *)
Theorem renderers_missing_key
    {G : Type} `{RandomSource G} `{Clock} `{YamlDumper} `{Formatter}
    (h : list pyobj) (g : G) (plan : addr) (entries : list (pystr * addr))
    (fuel : nat) (now : datetime) :
  h !! plan = Some (ODict entries) →
  (dict_get (str "feature_name") entries = None →
   snd (tracking_plan_to_markdown fuel plan (h, g)) = Raise KeyError)
  ∧ (dict_get (str "events") entries = None →
     snd (tracking_plan_to_dbt_yaml_obj fuel plan (h, g)) = Raise KeyError
     ∧ ∀ n, (1 ≤ n)%Z →
            snd (generate_sample_events_obj fuel plan n now (h, g)) = Raise KeyError)
  ∧ (∀ n, (n ≤ 0)%Z →
          generate_sample_events_obj fuel plan n now (h, g)
          = ((h ++ [OList []], g), Ok (length h))).
Proof.
  intros Hplan.
  assert (Hl : (h ++ [OList []]) !! plan = Some (ODict entries)).
  { rewrite lookup_app_l; [done|]. by eapply lookup_lt_Some. }
  split; [|split].
  - intros Hk. unfold tracking_plan_to_markdown, hbind, alloc, field, getitem, hbind, load.
    cbn [fst snd]. rewrite Hl. by rewrite Hk.
  - intros Hk. split.
    + unfold tracking_plan_to_dbt_yaml_obj, hbind, alloc, getitem, hbind, load.
      cbn [fst snd]. rewrite Hl. by rewrite Hk.
    + intros n Hn. unfold generate_sample_events_obj, hbind, alloc. cbn [fst snd].
      destruct (Z.to_nat n) as [|count] eqn:E; [lia|]. cbn [repeat_times].
      unfold hbind, sample_event, hbind, getitem, hbind, load.
      cbn [fst snd]. rewrite Hl. by rewrite Hk.
  - intros n Hn. unfold generate_sample_events_obj, hbind, alloc. cbn [fst snd].
    replace (Z.to_nat n) with 0%nat by lia. reflexivity.
Qed.

Lemma renderers_missing_key_witness :
  snd (@tracking_plan_to_markdown N opaque_formatter 5 0%nat ([ODict []], 7))
  = Raise KeyError.
Proof.
  exact (proj1 (@renderers_missing_key N lcg_source minute_clock flow_dumper
                  opaque_formatter [ODict []] 7 0%nat [] 5%nat 0%Z eq_refl) eq_refl).
Defined.
